(** * FLIR image enhancement (469_Final.py): a shallow embedding

    The script enhances a single-channel 8-bit image in four stages:
    [adaptive_median_filter], [plateau_histogram] (applied pixel by pixel in
    [process_image]), [edge_sharpening] and [optimize_palette].

    A NumPy array is a flat buffer together with its shape, and that is how
    an image is modelled here: a record of [rows], [cols] and the row-major
    list [data] of pixel values.  Pixels are [Z] values; a well-formed image
    has [rows * cols] of them, each in [0, 255] (dtype uint8).

    The [for] loops that fill an output array are folds over Python's
    [range], threading the array.  Calls into NumPy and OpenCV are modelled
    by what the libraries document: [np.min], [np.max], [np.median],
    [np.cumsum], [cv2.calcHist], the saturating [cv2.add] and
    [cv2.subtract], [cv2.bitwise_not].  [cv2.GaussianBlur] is left as a
    parameter of [edge_sharpening].  The histogram stage computes in
    float32; all its values are whole numbers, kept as [Z] with the
    rounding to 24 significant bits written out ([f32]), and a division by
    zero yields nan or inf as it does in NumPy ([floor_divide]). *)

From Stdlib Require Import ZArith List Lia Bool Arith.
From stdpp Require Import base list.
Import ListNotations.

Local Open Scope Z_scope.

(** ** Images *)

Record image : Type := mkImage {
  rows : nat;
  cols : nat;
  data : list Z
}.

Definition is_u8 (v : Z) : Prop := 0 <= v <= 255.

Definition wf_image (img : image) : Prop :=
  length (data img) = (rows img * cols img)%nat /\ Forall is_u8 (data img).

(** [image[i, j]].  NumPy raises IndexError outside the shape; every read the
    script makes is inside it, and the model returns 0 outside the buffer. *)
Definition px (img : image) (i j : nat) : Z :=
  default 0 (data img !! (i * cols img + j)%nat).

(** [image[i, j] = v], an in-place store, as a new image value. *)
Definition set_px (img : image) (i j : nat) (v : Z) : image :=
  mkImage (rows img) (cols img) (<[(i * cols img + j)%nat := v]> (data img)).

(** [np.zeros_like(image)]: same shape, every pixel 0. *)
Definition zeros_like (img : image) : image :=
  mkImage (rows img) (cols img) (repeat 0 (rows img * cols img)).

(** Python's [range(a, b)]. *)
Definition range (a b : nat) : list nat := seq a (b - a).

(** ** Stage 1: adaptive median filter *)

(** [np.min] and [np.max] of a flattened array. *)
Definition np_min (l : list Z) : Z := fold_left Z.min (tl l) (hd 0 l).
Definition np_max (l : list Z) : Z := fold_left Z.max (tl l) (hd 0 l).

Fixpoint insert_sorted (x : Z) (l : list Z) : list Z :=
  match l with
  | [] => [x]
  | y :: l' => if x <=? y then x :: l else y :: insert_sorted x l'
  end.

Definition sort (l : list Z) : list Z := fold_right insert_sorted [] l.

(** [np.median]: the middle element of the sorted values, or the mean of the
    two middle ones.  The result is stored into a uint8 array, which drops
    the fraction of a mean. *)
Definition np_median (l : list Z) : Z :=
  let s := sort l in
  let n := length l in
  if Nat.odd n then nth (n / 2) s 0
  else (nth (n / 2 - 1) s 0 + nth (n / 2) s 0) / 2.

(** [image[i - 1:i + 2, j - 1:j + 2].flatten()]: for the [i], [j] the loops
    visit the slice is the full 3x3 window, in row-major order. *)
Definition neighborhood (img : image) (i j : nat) : list Z :=
  flat_map (fun r => map (fun c => px img r c) (range (j - 1) (j + 2)))
           (range (i - 1) (i + 2)).

(** The test [center_pixel > max_val or center_pixel < min_val]. *)
Definition replaces_with_median (img : image) (i j : nat) : bool :=
  let nb := neighborhood img i j in
  let min_val := np_min nb in
  let max_val := np_max nb in
  let center_pixel := px img i j in
  (center_pixel >? max_val) || (center_pixel <? min_val).

(** The body of the inner loop. *)
Definition filter_pixel (img filtered_image : image) (i j : nat) : image :=
  let median_val := np_median (neighborhood img i j) in
  let center_pixel := px img i j in
  if replaces_with_median img i j
  then set_px filtered_image i j median_val
  else set_px filtered_image i j center_pixel.

Definition adaptive_median_filter (img : image) : image :=
  let filtered_image := zeros_like img in
  fold_left
    (fun acc i =>
       fold_left (fun acc' j => filter_pixel img acc' i j)
                 (range 1 (cols img - 1)) acc)
    (range 1 (rows img - 1)) filtered_image.

(** ** Stage 2: plateau histogram *)

(** [cv2.calcHist] returns its counts as float32 values, and the arrays
    derived from them ([transformed_hist], [Ft], [255 * Ft], [Dt]) are
    float32 too.  Every value that occurs is a non-negative integer, so a
    float32 is modelled by the integer it holds and [f32] rounds an integer
    to the nearest float32 (24-bit significand, ties to even).  Integers
    below [2^24] are exact. *)
Definition f32 (z : Z) : Z :=
  if z <? 2 ^ 24 then z
  else
    let ulp := 2 ^ (Z.log2 z - 23) in
    let q := z / ulp in
    let r := z mod ulp in
    if 2 * r <? ulp then q * ulp
    else if ulp <? 2 * r then (q + 1) * ulp
    else if Z.even q then q * ulp
    else (q + 1) * ulp.

(** The result of a float32 floor division [a // b] of non-negative
    operands: NumPy yields nan for [0 // 0] and inf for [a // 0] with
    [a > 0] (and a RuntimeWarning), not an exception. *)
Inductive f32val : Type :=
| Num (z : Z)
| PosInf
| NaN.

Definition floor_divide (a b : Z) : f32val :=
  if b =? 0 then (if a =? 0 then NaN else PosInf) else Num (a / b).

(** [cv2.calcHist([image], [0], None, [256], [0, 256]).flatten()]: bin [v]
    counts the pixels equal to [v], for [v] in 0..255. *)
Definition calcHist (img : image) : list Z :=
  map (fun v => f32 (Z.of_nat (count_occ Z.eq_dec (data img) (Z.of_nat v))))
      (range 0 256).

(** [hist[i]] *)
Definition bin (hist : list Z) (i : nat) : Z := nth i hist 0.

(** [hist[i - 1] < hist[i] and hist[i] > hist[i + 1]] *)
Definition is_peak (hist : list Z) (i : nat) : bool :=
  (bin hist (i - 1) <? bin hist i) && (bin hist i >? bin hist (i + 1)).

(** The loop [for i in range(1, 255): if ...: threshold += i], from 0. *)
Definition peak_index_sum (hist : list Z) : Z :=
  fold_left
    (fun threshold i =>
       if is_peak hist i then threshold + Z.of_nat i else threshold)
    (range 1 255) 0.

(** [int(threshold / 2)]: a true division, truncated towards zero. *)
Definition plateau_threshold (hist : list Z) : Z :=
  Z.quot (peak_index_sum hist) 2.

(** One round of the clipping loop: the value stored at [transformed_hist[i]]. *)
Definition clip_bin (threshold h : Z) : Z :=
  if h >? threshold then threshold else h.

(** The loop [for i in range(256)] writes every entry of
    [transformed_hist] once. *)
Definition clipped_hist (hist : list Z) : list Z :=
  let threshold := plateau_threshold hist in
  map (fun i => clip_bin threshold (bin hist i)) (range 0 256).

(** [np.cumsum] of a float32 array: a running float32 sum. *)
Fixpoint cumsum_from (acc : Z) (l : list Z) : list Z :=
  match l with
  | [] => []
  | x :: l' => let s := f32 (acc + x) in s :: cumsum_from s l'
  end.

Definition np_cumsum (l : list Z) : list Z :=
  match l with
  | [] => []
  | x :: l' => x :: cumsum_from x l'
  end.

Definition plateau_Ft (img : image) : list Z :=
  np_cumsum (clipped_hist (calcHist img)).

(** [Ft[-1]] *)
Definition plateau_max_Ft (img : image) : Z := List.last (plateau_Ft img) 0.

(** [(255 * Ft) // max_Ft] *)
Definition plateau_histogram (img : image) : list f32val :=
  let Ft := plateau_Ft img in
  let max_Ft := plateau_max_Ft img in
  map (fun F => floor_divide (f32 (255 * F)) max_Ft) Ft.

(** ** The enhancement loop of [process_image] *)

(** Storing a float32 into the uint8 array [enhanced_image] converts it.  A
    table entry that is a number is a whole number in [0, 255] and is kept;
    what nan and inf become is left to the platform: [nan_u8], [inf_u8]. *)
Definition store_u8 (nan_u8 inf_u8 : Z) (x : f32val) : Z :=
  match x with
  | Num z => z
  | PosInf => inf_u8
  | NaN => nan_u8
  end.

(** [Dt[v]] for a pixel value [v]. *)
Definition lookup_table (Dt : list f32val) (v : Z) : f32val :=
  nth (Z.to_nat v) Dt NaN.

(** The two arrays alive during the loop. *)
Record enhance_state : Type := mkEnhance {
  filtered_image : image;
  enhanced_image : image
}.

(** [enhanced_image[i, j] = plateau_histogram(filtered_image)[filtered_image[i, j]]]:
    the table is recomputed from the array [filtered_image] as it is at
    this point of the loop. *)
Definition enhance_pixel (nan_u8 inf_u8 : Z) (st : enhance_state) (i j : nat)
  : enhance_state :=
  let Dt := plateau_histogram (filtered_image st) in
  let v := store_u8 nan_u8 inf_u8 (lookup_table Dt (px (filtered_image st) i j)) in
  mkEnhance (filtered_image st) (set_px (enhanced_image st) i j v).

Definition enhance (nan_u8 inf_u8 : Z) (filtered : image) : image :=
  enhanced_image
    (fold_left
       (fun st i =>
          fold_left (fun st' j => enhance_pixel nan_u8 inf_u8 st' i j)
                    (range 0 (cols filtered)) st)
       (range 0 (rows filtered))
       (mkEnhance filtered (zeros_like filtered))).

(** The loop with the table hoisted: computed once for the whole image,
    then one lookup per pixel. *)
Definition enhance_hoisted (nan_u8 inf_u8 : Z) (filtered : image) : image :=
  let Dt := plateau_histogram filtered in
  fold_left
    (fun enhanced i =>
       fold_left
         (fun enhanced' j =>
            set_px enhanced' i j
                   (store_u8 nan_u8 inf_u8 (lookup_table Dt (px filtered i j))))
         (range 0 (cols filtered)) enhanced)
    (range 0 (rows filtered)) (zeros_like filtered).

(** ** Stage 3: edge sharpening *)

(** OpenCV's [saturate_cast<uchar>]: clamp to [0, 255]. *)
Definition saturate_u8 (z : Z) : Z := Z.max 0 (Z.min 255 z).

(** [cv2.subtract] and [cv2.add] on uint8 images: per element, saturated. *)
Definition cv_subtract (a b : image) : image :=
  mkImage (rows a) (cols a)
          (zip_with (fun x y => saturate_u8 (x - y)) (data a) (data b)).

Definition cv_add (a b : image) : image :=
  mkImage (rows a) (cols a)
          (zip_with (fun x y => saturate_u8 (x + y)) (data a) (data b)).

(** [cv2.GaussianBlur(image, (5, 5), 0)] is library code; the stage is
    modelled over the blur it is given. *)
Definition edge_sharpening (GaussianBlur : image -> image) (img : image) : image :=
  let smoothed_image := GaussianBlur img in
  let difference_image := cv_subtract img smoothed_image in
  let sharpened_image := cv_add img difference_image in
  sharpened_image.

(** Saturating arithmetic as the specification words it: a subtraction
    clipped below at 0, an addition clipped above at 255. *)
Definition saturating_subtract (a b : Z) : Z := Z.max (a - b) 0.
Definition saturating_add (a b : Z) : Z := Z.min (a + b) 255.

(** A simple low-pass filter to run the stage on: every pixel becomes the
    mean of itself and its two neighbours in the buffer. *)
Definition box_blur (img : image) : image :=
  mkImage (rows img) (cols img)
          (map (fun k => (nth (k - 1) (data img) 0 + nth k (data img) 0
                          + nth (k + 1) (data img) 0) / 3)
               (range 0 (length (data img)))).

(** ** Stage 4: palette inversion *)

(** [cv2.bitwise_not] on uint8: the low 8 bits of the complement. *)
Definition bitwise_not_u8 (v : Z) : Z := Z.land (Z.lnot v) 255.

Definition optimize_palette (img : image) : image :=
  mkImage (rows img) (cols img) (map bitwise_not_u8 (data img)).

(** ** The stages of [process_image] *)

(** What [process_image] computes between loading the image and showing
    the result: the four stages in sequence. *)
Definition process_stages (GaussianBlur : image -> image) (nan_u8 inf_u8 : Z)
  (flir_image : image) : image :=
  let filtered_image := adaptive_median_filter flir_image in
  let enhanced_image := enhance nan_u8 inf_u8 filtered_image in
  let sharpened_image := edge_sharpening GaussianBlur enhanced_image in
  let optimized_image := optimize_palette sharpened_image in
  optimized_image.

(** ** Definitions used in the statements *)

(** The buffer has one entry per position of the shape. *)
Definition shape_ok (img : image) : Prop :=
  length (data img) = (rows img * cols img)%nat.

(** An executable check of [wf_image]. *)
Definition wf_imageb (img : image) : bool :=
  (length (data img) =? rows img * cols img)%nat
  && forallb (fun v => (0 <=? v) && (v <=? 255)) (data img).

(** [write_row] and [write_loop] are the script's nested [for] loops when
    the value stored at [(i, j)] is [g i j]. *)
Definition write_row (g : nat -> nat -> Z) (i : nat) (js : list nat) (f : image)
  : image :=
  fold_left (fun acc j => set_px acc i j (g i j)) js f.

Definition write_loop (g : nat -> nat -> Z) (ris js : list nat) (f : image)
  : image :=
  fold_left (fun acc i => write_row g i js acc) ris f.

(** The value the inner loop stores at [(i, j)]. *)
Definition filtered_value (img : image) (i j : nat) : Z :=
  if replaces_with_median img i j
  then np_median (neighborhood img i j)
  else px img i j.

(** How [f32] rounds a value of 25 bits or more: [u] is the gap between
    neighbouring float32 values around [z], [q] the 24-bit significand of
    the one below. *)
Inductive f32_rounding (z : Z) : Prop :=
| F32Rounding (u q r : Z)
    (Hu : 0 < u)
    (Hbin : 2 ^ 23 * u = 2 ^ Z.log2 z)
    (Hz : z = q * u + r)
    (Hr : 0 <= r < u)
    (Hq : 2 ^ 23 <= q < 2 ^ 24)
    (Hround : (2 * r < u /\ f32 z = q * u) \/
              (u < 2 * r /\ f32 z = (q + 1) * u) \/
              (2 * r = u /\ Z.even q = true /\ f32 z = q * u) \/
              (2 * r = u /\ Z.even q = false /\ f32 z = (q + 1) * u)).

Definition sumZ (l : list Z) : Z := fold_right Z.add 0 l.

(** The threshold as the specification words it: half (integer division)
    of the sum of the bin indices in 1..254 that are strict local peaks. *)
Definition strict_local_peak (hist : list Z) (i : nat) : bool :=
  (nth (i - 1) hist 0 <? nth i hist 0) && (nth (i + 1) hist 0 <? nth i hist 0).

Definition peak_bins (hist : list Z) : list nat :=
  List.filter (strict_local_peak hist) (seq 1 254).

Definition spec_threshold (hist : list Z) : Z :=
  sumZ (map Z.of_nat (peak_bins hist)) / 2.

(** The running sum without rounding. *)
Fixpoint psums_from (acc : Z) (l : list Z) : list Z :=
  match l with
  | [] => []
  | x :: l' => (acc + x) :: psums_from (acc + x) l'
  end.

(** Every one of the 256 entries is a number in [0, 255]. *)
Definition remap_in_range (Dt : list f32val) : Prop :=
  forall i, (i < 256)%nat -> exists z, nth i Dt NaN = Num z /\ 0 <= z <= 255.

(** [Dt[i] <= Dt[i + 1]] for [i] in 0..254. *)
Definition remap_monotone (Dt : list f32val) : Prop :=
  forall i, (i < 255)%nat ->
    exists z z', nth i Dt NaN = Num z /\ nth (S i) Dt NaN = Num z' /\ z <= z'.

(** The clipped count of bin [k], as [plateau_histogram] forms it. *)
Definition clipped_bin (img : image) (k : nat) : Z :=
  clip_bin (plateau_threshold (calcHist img)) (bin (calcHist img) k).

(** The number a pixel value is mapped to when the total is not zero. *)
Definition table_number (img : image) (v : Z) : Z :=
  f32 (255 * nth (Z.to_nat v) (plateau_Ft img) 0) / plateau_max_Ft img.

(** Sample images. *)
Definition uniform_image (r c : nat) (v : Z) : image :=
  mkImage r c (repeat v (r * c)).

Definition ramp_3x4 : image := mkImage 3 4 [1; 2; 3; 4; 5; 6; 7; 8; 9; 10; 11; 12].

Definition black_pixel : image := mkImage 1 1 [0].

Definition uniform_128 : image := uniform_image 5 5 128.

Definition strip_1x5 : image := mkImage 1 5 [0; 255; 100; 200; 10].

Definition ramp_5x5 : image :=
  mkImage 5 5 [10; 20; 30; 40; 50;
               60; 70; 80; 90; 100;
               110; 120; 130; 140; 150;
               160; 170; 180; 190; 200;
               210; 220; 230; 240; 250].

(** Each even value 2, 4, ..., 254 once. *)
Definition even_values : image :=
  mkImage 1 127 (map (fun k => Z.of_nat (2 * k + 2)) (seq 0 127)).

Ltac split_decide :=
  repeat match goal with
         | |- context [decide ?P] => destruct (decide P)
         end.

(** * Properties *)

(** ** Reading and writing pixels *)

Lemma wf_shape_ok img : wf_image img -> shape_ok img.
Proof. intros [H _]. exact H. Qed.

Lemma shape_ok_set_px f i j v : shape_ok f -> shape_ok (set_px f i j v).
Proof. unfold shape_ok, set_px; simpl. now rewrite length_insert. Qed.

Lemma shape_ok_zeros_like img : shape_ok (zeros_like img).
Proof. unfold shape_ok, zeros_like; simpl. apply repeat_length. Qed.

Lemma flat_index_lt (r c i j : nat) :
  (i < r)%nat -> (j < c)%nat -> (i * c + j < r * c)%nat.
Proof.
  intros Hi Hj.
  assert (H : (S i * c <= r * c)%nat) by (apply Nat.mul_le_mono_r; lia).
  simpl in H. lia.
Qed.

Lemma flat_index_inj (c i j a b : nat) :
  (j < c)%nat -> (b < c)%nat ->
  (a * c + b)%nat = (i * c + j)%nat -> a = i /\ b = j.
Proof.
  intros Hj Hb Heq.
  destruct (Nat.lt_trichotomy a i) as [Hlt|[->|Hgt]].
  - pose proof (flat_index_lt i c a b Hlt Hb). lia.
  - lia.
  - pose proof (flat_index_lt a c i j Hgt Hj). lia.
Qed.

Lemma px_set_px_eq f i j v :
  shape_ok f -> (i < rows f)%nat -> (j < cols f)%nat ->
  px (set_px f i j v) i j = v.
Proof.
  unfold shape_ok, px, set_px; simpl; intros Hs Hi Hj.
  rewrite list_lookup_insert_eq; [reflexivity|].
  rewrite Hs. now apply flat_index_lt.
Qed.

Lemma px_set_px_ne f i j v a b :
  (j < cols f)%nat -> (b < cols f)%nat -> ~ (a = i /\ b = j) ->
  px (set_px f i j v) a b = px f a b.
Proof.
  unfold px, set_px; simpl; intros Hj Hb Hne.
  rewrite list_lookup_insert_ne; [reflexivity|].
  intros Heq. apply Hne. symmetry in Heq.
  now apply (flat_index_inj (cols f)).
Qed.

Lemma px_zeros_like img i j : px (zeros_like img) i j = 0.
Proof.
  unfold px, zeros_like; simpl.
  destruct (repeat 0 (rows img * cols img) !! (i * cols img + j)%nat) as [z|] eqn:E;
    [|reflexivity].
  simpl. apply list_elem_of_lookup_2, list_elem_of_In, repeat_spec in E. exact E.
Qed.

(** ** Loops that store one value per visited position *)

Lemma write_row_shape g i js f :
  rows (write_row g i js f) = rows f /\
  cols (write_row g i js f) = cols f /\
  (shape_ok f -> shape_ok (write_row g i js f)).
Proof.
  revert f. induction js as [|j js IH]; intros f; simpl; [tauto|].
  destruct (IH (set_px f i j (g i j))) as (Hr & Hc & Hs).
  unfold write_row in *. simpl. rewrite Hr, Hc. simpl.
  repeat split; trivial. intros H. now apply Hs, shape_ok_set_px.
Qed.

Lemma write_loop_shape g ris js f :
  rows (write_loop g ris js f) = rows f /\
  cols (write_loop g ris js f) = cols f /\
  (shape_ok f -> shape_ok (write_loop g ris js f)).
Proof.
  revert f. induction ris as [|i ris IH]; intros f; simpl; [tauto|].
  destruct (IH (write_row g i js f)) as (Hr & Hc & Hs).
  destruct (write_row_shape g i js f) as (Hr' & Hc' & Hs').
  unfold write_loop in *. simpl. rewrite Hr, Hc, Hr', Hc'.
  repeat split; trivial. intros H. now apply Hs, Hs'.
Qed.

Lemma px_write_row g i js f a b :
  shape_ok f -> (i < rows f)%nat -> Forall (fun j => (j < cols f)%nat) js ->
  (b < cols f)%nat ->
  px (write_row g i js f) a b =
  if decide (a = i /\ b ∈ js) then g i b else px f a b.
Proof.
  revert f. induction js as [|j js IH]; intros f Hs Hi Hjs Hb.
  - change (write_row g i [] f) with f.
    destruct (decide (a = i /\ b ∈ [])) as [[_ H]|]; [|reflexivity].
    now apply not_elem_of_nil in H.
  - inversion Hjs as [|? ? Hj Hjs']; subst.
    change (write_row g i (j :: js) f)
      with (write_row g i js (set_px f i j (g i j))).
    rewrite IH; trivial; [|now apply shape_ok_set_px].
    destruct (decide (a = i /\ b = j)) as [[-> ->]|Hne].
    + rewrite px_set_px_eq by trivial. clear IH.
      split_decide; try reflexivity;
        exfalso; rewrite elem_of_cons in *; intuition congruence.
    + rewrite px_set_px_ne by trivial. clear IH.
      split_decide; try reflexivity;
        exfalso; rewrite elem_of_cons in *; intuition congruence.
Qed.

Lemma px_write_loop g ris js f a b :
  shape_ok f -> Forall (fun i => (i < rows f)%nat) ris ->
  Forall (fun j => (j < cols f)%nat) js -> (b < cols f)%nat ->
  px (write_loop g ris js f) a b =
  if decide (a ∈ ris /\ b ∈ js) then g a b else px f a b.
Proof.
  revert f. induction ris as [|i ris IH]; intros f Hs His Hjs Hb.
  - change (write_loop g [] js f) with f.
    destruct (decide (a ∈ [] /\ b ∈ js)) as [[H _]|]; [|reflexivity].
    now apply not_elem_of_nil in H.
  - inversion His as [|? ? Hi His']; subst.
    change (write_loop g (i :: ris) js f)
      with (write_loop g ris js (write_row g i js f)).
    destruct (write_row_shape g i js f) as (Hr & Hc & Hs').
    rewrite IH; rewrite ?Hr, ?Hc; auto.
    rewrite px_write_row by trivial. clear IH.
    split_decide; try reflexivity;
      try (exfalso; rewrite elem_of_cons in *; intuition congruence).
    match goal with H : a = i /\ _ |- _ => destruct H as [-> _] end.
    reflexivity.
Qed.

Lemma in_range (a b k : nat) : k ∈ range a b <-> (a <= k < b)%nat.
Proof. unfold range. rewrite list_elem_of_In, in_seq. lia. Qed.

Lemma Forall_range_lt (a b n : nat) :
  (b <= n)%nat -> Forall (fun k => (k < n)%nat) (range a b).
Proof.
  intros H. apply Forall_forall. intros k Hk. apply in_range in Hk. lia.
Qed.

Lemma fold_left_ext {A B : Type} (f g : A -> B -> A) (l : list B) (a : A) :
  (forall x y, f x y = g x y) -> fold_left f l a = fold_left g l a.
Proof.
  intros H. revert a. induction l as [|y l IH]; intros a; simpl; [reflexivity|].
  now rewrite H, IH.
Qed.

(** ** Stage 1: the filter copies the interior and blacks out the border *)

Lemma fold_min_le (l : list Z) (a : Z) :
  fold_left Z.min l a <= a /\ forall x, In x l -> fold_left Z.min l a <= x.
Proof.
  revert a. induction l as [|y l IH]; intros a; simpl.
  - split; [lia | tauto].
  - destruct (IH (Z.min a y)) as [H1 H2]. split; [lia|].
    intros x [<-|Hx]; [lia | now apply H2].
Qed.

Lemma fold_max_ge (l : list Z) (a : Z) :
  a <= fold_left Z.max l a /\ forall x, In x l -> x <= fold_left Z.max l a.
Proof.
  revert a. induction l as [|y l IH]; intros a; simpl.
  - split; [lia | tauto].
  - destruct (IH (Z.max a y)) as [H1 H2]. split; [lia|].
    intros x [<-|Hx]; [lia | now apply H2].
Qed.

Lemma np_min_le (l : list Z) (x : Z) : In x l -> np_min l <= x.
Proof.
  unfold np_min. destruct l as [|a l]; simpl; [tauto|].
  destruct (fold_min_le l a) as [H1 H2]. intros [<-|Hx]; auto.
Qed.

Lemma np_max_ge (l : list Z) (x : Z) : In x l -> x <= np_max l.
Proof.
  unfold np_max. destruct l as [|a l]; simpl; [tauto|].
  destruct (fold_max_ge l a) as [H1 H2]. intros [<-|Hx]; auto.
Qed.

(** The window of an interior position holds the position's own pixel. *)
Lemma center_in_neighborhood img i j :
  (1 <= i)%nat -> (1 <= j)%nat -> In (px img i j) (neighborhood img i j).
Proof.
  intros Hi Hj. unfold neighborhood. apply in_flat_map. exists i. split.
  - apply list_elem_of_In, in_range. lia.
  - apply in_map_iff. exists j. split; [reflexivity|].
    apply list_elem_of_In, in_range. lia.
Qed.

Lemma replace_branch_dead img i j :
  (1 <= i)%nat -> (1 <= j)%nat -> replaces_with_median img i j = false.
Proof.
  intros Hi Hj. unfold replaces_with_median.
  pose proof (center_in_neighborhood img i j Hi Hj) as Hin.
  pose proof (np_min_le _ _ Hin). pose proof (np_max_ge _ _ Hin).
  apply orb_false_iff. split; lia.
Qed.

Lemma filter_pixel_stores img f i j :
  filter_pixel img f i j = set_px f i j (filtered_value img i j).
Proof.
  unfold filter_pixel, filtered_value.
  now destruct (replaces_with_median img i j).
Qed.

Lemma adaptive_median_filter_as_loop img :
  adaptive_median_filter img =
  write_loop (filtered_value img) (range 1 (rows img - 1))
             (range 1 (cols img - 1)) (zeros_like img).
Proof.
  unfold adaptive_median_filter, write_loop, write_row.
  apply fold_left_ext. intros acc i.
  apply fold_left_ext. intros acc' j. apply filter_pixel_stores.
Qed.

Lemma px_adaptive_median_filter img i j :
  (j < cols img)%nat ->
  px (adaptive_median_filter img) i j =
  if decide (i ∈ range 1 (rows img - 1) /\ j ∈ range 1 (cols img - 1))
  then filtered_value img i j else 0.
Proof.
  intros Hj. rewrite adaptive_median_filter_as_loop.
  rewrite px_write_loop.
  - now rewrite px_zeros_like.
  - apply shape_ok_zeros_like.
  - apply Forall_range_lt. simpl. lia.
  - apply Forall_range_lt. simpl. lia.
  - exact Hj.
Qed.

(** C1. For every image and every position [(i, j)] inside its shape: at an
    interior position (rows 1..H-2, columns 1..W-2) the test of the
    replace-with-median branch is false and the filter's output equals the
    input pixel; at a border position (row 0, row H-1, column 0, column
    W-1) the output is 0.  The output has the input's shape. *)
Theorem adaptive_median_filter_interior_border (img : image) (i j : nat) :
  (i < rows img)%nat -> (j < cols img)%nat ->
  rows (adaptive_median_filter img) = rows img /\
  cols (adaptive_median_filter img) = cols img /\
  ((1 <= i < rows img - 1)%nat /\ (1 <= j < cols img - 1)%nat ->
   replaces_with_median img i j = false /\
   px (adaptive_median_filter img) i j = px img i j) /\
  (i = 0%nat \/ i = (rows img - 1)%nat \/ j = 0%nat \/ j = (cols img - 1)%nat ->
   px (adaptive_median_filter img) i j = 0).
Proof.
  intros Hi Hj.
  split; [|split; [|split]].
  - rewrite adaptive_median_filter_as_loop.
    now destruct (write_loop_shape (filtered_value img) (range 1 (rows img - 1))
                    (range 1 (cols img - 1)) (zeros_like img)) as (-> & _).
  - rewrite adaptive_median_filter_as_loop.
    now destruct (write_loop_shape (filtered_value img) (range 1 (rows img - 1))
                    (range 1 (cols img - 1)) (zeros_like img)) as (_ & -> & _).
  - intros [Hri Hrj].
    assert (Hdead : replaces_with_median img i j = false)
      by (apply replace_branch_dead; lia).
    split; [exact Hdead|].
    rewrite px_adaptive_median_filter by exact Hj.
    destruct (decide _) as [_|Hn].
    + unfold filtered_value. now rewrite Hdead.
    + exfalso. apply Hn. rewrite !in_range. lia.
  - intros Hborder.
    rewrite px_adaptive_median_filter by exact Hj.
    destruct (decide _) as [[Hri Hrj]|_]; [|reflexivity].
    exfalso. rewrite in_range in Hri, Hrj. lia.
Qed.

Lemma adaptive_median_filter_interior_border_witness :
  px (adaptive_median_filter ramp_3x4) 1 2 = 7 /\
  px (adaptive_median_filter ramp_3x4) 2 3 = 0.
Proof.
  split.
  - apply (adaptive_median_filter_interior_border ramp_3x4 1 2);
      simpl; lia.
  - apply (adaptive_median_filter_interior_border ramp_3x4 2 3);
      simpl; lia.
Defined.

(** C10. An image with fewer than 3 rows or fewer than 3 columns has no
    interior: the filter returns the zero-initialised image, which has the
    input's shape and holds only zeros. *)
Theorem adaptive_median_filter_no_interior (img : image) :
  (rows img < 3)%nat \/ (cols img < 3)%nat ->
  adaptive_median_filter img = zeros_like img /\
  rows (adaptive_median_filter img) = rows img /\
  cols (adaptive_median_filter img) = cols img /\
  Forall (fun v => v = 0) (data (adaptive_median_filter img)).
Proof.
  intros H.
  assert (E : adaptive_median_filter img = zeros_like img).
  { unfold adaptive_median_filter.
    destruct H as [H|H].
    - replace (range 1 (rows img - 1)) with (@nil nat); [reflexivity|].
      unfold range. now replace (rows img - 1 - 1)%nat with 0%nat by lia.
    - replace (range 1 (cols img - 1)) with (@nil nat).
      + simpl. generalize (zeros_like img).
        induction (range 1 (rows img - 1)) as [|k l IH]; intros f; simpl; auto.
      + unfold range. now replace (cols img - 1 - 1)%nat with 0%nat by lia. }
  rewrite E. simpl. repeat split; trivial.
  apply Forall_forall. intros v Hv.
  now apply list_elem_of_In, repeat_spec in Hv.
Qed.

Lemma adaptive_median_filter_no_interior_witness :
  adaptive_median_filter (mkImage 2 4 [1; 2; 3; 4; 5; 6; 7; 8]) =
  mkImage 2 4 [0; 0; 0; 0; 0; 0; 0; 0].
Proof.
  apply (adaptive_median_filter_no_interior (mkImage 2 4 [1; 2; 3; 4; 5; 6; 7; 8])).
  simpl. lia.
Defined.

(** ** Rounding to float32 *)

Lemma f32_small z : z < 2 ^ 24 -> f32 z = z.
Proof.
  intros H. unfold f32. destruct (z <? 2 ^ 24) eqn:E; [reflexivity|].
  apply Z.ltb_ge in E. lia.
Qed.

Lemma log2_ge_24 z : 2 ^ 24 <= z -> 24 <= Z.log2 z.
Proof.
  intros H. rewrite <- (Z.log2_pow2 24) by lia. now apply Z.log2_le_mono.
Qed.

Lemma f32_big z : 2 ^ 24 <= z -> f32_rounding z.
Proof.
  intros H. pose proof (log2_ge_24 z H) as HL.
  set (u := 2 ^ (Z.log2 z - 23)).
  assert (Hu : 0 < u) by (apply Z.pow_pos_nonneg; lia).
  assert (Hbin : 2 ^ 23 * u = 2 ^ Z.log2 z).
  { unfold u. rewrite <- Z.pow_add_r by lia. f_equal. lia. }
  assert (Hspec : 2 ^ Z.log2 z <= z < 2 * 2 ^ Z.log2 z).
  { destruct (Z.log2_spec z) as [H1 H2]; [lia|].
    rewrite Z.pow_succ_r in H2 by lia. lia. }
  pose proof (Z.div_mod z u ltac:(lia)) as Hdm.
  pose proof (Z.mod_pos_bound z u Hu) as Hr.
  assert (Hq : 2 ^ 23 <= z / u < 2 ^ 24).
  { split.
    - apply Z.div_le_lower_bound; lia.
    - apply Z.div_lt_upper_bound; lia. }
  apply (F32Rounding z u (z / u) (z mod u)); try lia.
  unfold f32. fold u.
  destruct (z <? 2 ^ 24) eqn:E; [apply Z.ltb_lt in E; lia|].
  destruct (2 * (z mod u) <? u) eqn:E1; [apply Z.ltb_lt in E1; tauto|].
  apply Z.ltb_ge in E1.
  destruct (u <? 2 * (z mod u)) eqn:E2; [apply Z.ltb_lt in E2; tauto|].
  apply Z.ltb_ge in E2.
  destruct (Z.even (z / u)) eqn:E3.
  - right; right; left. repeat split; lia.
  - right; right; right. repeat split; lia.
Qed.

Lemma f32_binade z :
  2 ^ 24 <= z -> 2 ^ Z.log2 z <= f32 z <= 2 * 2 ^ Z.log2 z.
Proof.
  intros H. destruct (f32_big z H) as [u q r Hu Hbin Hz Hr Hq Hround].
  assert (2 ^ 23 * u <= q * u) by (apply Z.mul_le_mono_nonneg_r; lia).
  assert ((q + 1) * u <= 2 ^ 24 * u) by (apply Z.mul_le_mono_nonneg_r; lia).
  lia.
Qed.

Lemma f32_nonneg z : 0 <= z -> 0 <= f32 z.
Proof.
  intros H. destruct (Z.lt_ge_cases z (2 ^ 24)) as [Hs|Hb].
  - rewrite f32_small; lia.
  - pose proof (f32_binade z Hb). pose proof (Z.pow_pos_nonneg 2 (Z.log2 z)).
    pose proof (Z.log2_nonneg z). lia.
Qed.

Lemma f32_pos z : 0 < z -> 0 < f32 z.
Proof.
  intros H. destruct (Z.lt_ge_cases z (2 ^ 24)) as [Hs|Hb].
  - rewrite f32_small; lia.
  - pose proof (f32_binade z Hb). pose proof (Z.pow_pos_nonneg 2 (Z.log2 z)).
    pose proof (Z.log2_nonneg z). lia.
Qed.

(** Rounding moves a value by at most half a gap, and a gap is at most
    [z / 2^23]. *)
Lemma f32_upper z : 0 <= z -> 2 ^ 24 * f32 z <= (2 ^ 24 + 1) * z.
Proof.
  intros H. destruct (Z.lt_ge_cases z (2 ^ 24)) as [Hs|Hb].
  - rewrite f32_small; lia.
  - destruct (f32_big z Hb) as [u q r Hu Hbin Hz Hr Hq Hround].
    assert (2 ^ 23 * u <= q * u) by (apply Z.mul_le_mono_nonneg_r; lia).
    lia.
Qed.

Lemma f32_mono x y : x <= y -> f32 x <= f32 y.
Proof.
  intros Hxy.
  destruct (Z.lt_ge_cases y (2 ^ 24)) as [Hys|Hyb].
  { rewrite !f32_small; lia. }
  pose proof (f32_binade y Hyb) as Hby.
  destruct (Z.lt_ge_cases x (2 ^ 24)) as [Hxs|Hxb].
  { rewrite (f32_small x) by lia.
    pose proof (log2_ge_24 y Hyb).
    assert (2 ^ 24 <= 2 ^ Z.log2 y) by (apply Z.pow_le_mono_r; lia).
    lia. }
  pose proof (f32_binade x Hxb) as Hbx.
  assert (HL : Z.log2 x <= Z.log2 y) by now apply Z.log2_le_mono.
  destruct (Z.eq_dec (Z.log2 x) (Z.log2 y)) as [Heq|Hne].
  - destruct (f32_big x Hxb) as [u q r Hu Hbin Hz Hr Hq Hround].
    destruct (f32_big y Hyb) as [u' q' r' Hu' Hbin' Hz' Hr' Hq' Hround'].
    assert (u' = u) by (rewrite <- Heq in Hbin'; lia). subst u'.
    destruct (Z.lt_trichotomy q q') as [Hlt|[->|Hgt]].
    + assert ((q + 1) * u <= q' * u) by (apply Z.mul_le_mono_nonneg_r; lia).
      lia.
    + destruct Hround as [?|[?|[?|?]]], Hround' as [?|[?|[?|?]]];
        try lia; intuition congruence.
    + assert ((q' + 1) * u <= q * u) by (apply Z.mul_le_mono_nonneg_r; lia).
      lia.
  - assert (2 * 2 ^ Z.log2 x <= 2 ^ Z.log2 y).
    { rewrite <- Z.pow_succ_r by apply Z.log2_nonneg.
      apply Z.pow_le_mono_r; lia. }
    lia.
Qed.

(** ** Stage 2: histogram, threshold and cumulative sum *)

Lemma is_peak_strict_local_peak hist i : is_peak hist i = strict_local_peak hist i.
Proof.
  unfold is_peak, strict_local_peak, bin. f_equal. apply Z.gtb_ltb.
Qed.

Lemma fold_peak_sum (p : nat -> bool) (l : list nat) (a : Z) :
  fold_left (fun t i => if p i then t + Z.of_nat i else t) l a =
  a + sumZ (map Z.of_nat (List.filter p l)).
Proof.
  revert a. induction l as [|i l IH]; intros a; simpl; [lia|].
  rewrite IH. destruct (p i); simpl; lia.
Qed.

Lemma sumZ_filter_bounds (p : nat -> bool) (l : list nat) :
  0 <= sumZ (map Z.of_nat (List.filter p l)) <= sumZ (map Z.of_nat l).
Proof.
  induction l as [|i l IH]; simpl; [lia|].
  destruct (p i); simpl; lia.
Qed.

Lemma peak_index_sum_spec hist :
  peak_index_sum hist = sumZ (map Z.of_nat (peak_bins hist)).
Proof.
  unfold peak_index_sum, peak_bins. rewrite fold_peak_sum.
  change (range 1 255) with (seq 1 254). rewrite Z.add_0_l.
  now rewrite (filter_ext _ _ (is_peak_strict_local_peak hist)).
Qed.

Lemma peak_index_sum_bounds hist : 0 <= peak_index_sum hist <= 32385.
Proof.
  unfold peak_index_sum. rewrite fold_peak_sum.
  pose proof (sumZ_filter_bounds (is_peak hist) (range 1 255)) as H.
  change (sumZ (map Z.of_nat (range 1 255))) with 32385 in H. lia.
Qed.

(** The threshold is a small whole number: storing it into the float32
    array [transformed_hist] is exact. *)
Lemma plateau_threshold_bounds hist : 0 <= plateau_threshold hist <= 16192.
Proof.
  unfold plateau_threshold. pose proof (peak_index_sum_bounds hist) as H.
  rewrite Z.quot_div_nonneg by lia.
  split; [apply Z.div_pos; lia|].
  change 16192 with (32385 / 2). apply Z.div_le_mono; lia.
Qed.

Lemma length_calcHist img : length (calcHist img) = 256%nat.
Proof. unfold calcHist. now rewrite length_map. Qed.

Lemma nth_map_range {A : Type} (f : nat -> A) (n i : nat) (d : A) :
  (i < n)%nat -> nth i (map f (range 0 n)) d = f i.
Proof.
  intros Hi. rewrite (nth_indep _ d (f 0%nat)).
  - rewrite map_nth. unfold range. rewrite seq_nth; [reflexivity | lia].
  - rewrite length_map. unfold range. rewrite length_seq. lia.
Qed.

Lemma bin_calcHist img i :
  (i < 256)%nat ->
  bin (calcHist img) i = f32 (Z.of_nat (count_occ Z.eq_dec (data img) (Z.of_nat i))).
Proof.
  intros Hi. unfold bin, calcHist. now rewrite nth_map_range.
Qed.

Lemma bin_calcHist_nonneg img i : 0 <= bin (calcHist img) i.
Proof.
  destruct (Nat.lt_ge_cases i 256) as [Hi|Hi].
  - rewrite bin_calcHist by exact Hi. apply f32_nonneg. lia.
  - unfold bin. rewrite nth_overflow; [lia|]. now rewrite length_calcHist.
Qed.

Lemma clip_bin_bounds t h : 0 <= t -> 0 <= h -> 0 <= clip_bin t h <= t.
Proof. intros Ht Hh. unfold clip_bin. destruct (h >? t) eqn:E; lia. Qed.

Lemma length_clipped_hist hist : length (clipped_hist hist) = 256%nat.
Proof. unfold clipped_hist. now rewrite length_map. Qed.

Lemma clipped_hist_le_threshold img :
  Forall (fun x => 0 <= x <= plateau_threshold (calcHist img))
         (clipped_hist (calcHist img)).
Proof.
  unfold clipped_hist. apply Forall_forall. intros x Hx.
  apply list_elem_of_In, in_map_iff in Hx. destruct Hx as (i & <- & _).
  pose proof (plateau_threshold_bounds (calcHist img)).
  apply clip_bin_bounds; [lia | apply bin_calcHist_nonneg].
Qed.

Lemma clipped_hist_bounds img :
  Forall (fun x => 0 <= x <= 16192) (clipped_hist (calcHist img)).
Proof.
  pose proof (plateau_threshold_bounds (calcHist img)).
  eapply Forall_impl; [apply clipped_hist_le_threshold|].
  intros x Hx. simpl in Hx. lia.
Qed.

Lemma clipped_hist_nonneg img :
  Forall (fun x => 0 <= x) (clipped_hist (calcHist img)).
Proof.
  eapply Forall_impl; [apply clipped_hist_le_threshold|].
  intros x Hx. simpl in Hx. lia.
Qed.

Lemma nth_clipped_hist hist i :
  (i < 256)%nat ->
  nth i (clipped_hist hist) 0 = clip_bin (plateau_threshold hist) (bin hist i).
Proof.
  intros Hi. unfold clipped_hist. now rewrite nth_map_range.
Qed.

(** While the total stays below [2^24] the float32 running sum is exact. *)
Lemma cumsum_from_exact (B : Z) (l : list Z) (acc : Z) :
  0 <= acc -> Forall (fun x => 0 <= x <= B) l ->
  acc + B * Z.of_nat (length l) < 2 ^ 24 ->
  cumsum_from acc l = psums_from acc l.
Proof.
  revert acc. induction l as [|x l IH]; intros acc Hacc Hl Hb; [reflexivity|].
  inversion Hl as [|? ? Hx Hl']; subst.
  cbn [cumsum_from psums_from]. rewrite length_cons in Hb.
  rewrite f32_small by nia.
  f_equal. apply IH; trivial; nia.
Qed.

Lemma np_cumsum_exact (B : Z) (l : list Z) :
  Forall (fun x => 0 <= x <= B) l -> B * Z.of_nat (length l) < 2 ^ 24 ->
  np_cumsum l = psums_from 0 l.
Proof.
  intros Hl Hb. destruct l as [|x l]; [reflexivity|].
  inversion Hl as [|? ? Hx Hl']; subst. rewrite length_cons in Hb.
  cbn [np_cumsum psums_from]. rewrite Z.add_0_l. f_equal.
  apply (cumsum_from_exact B); trivial; nia.
Qed.

Lemma plateau_Ft_exact img :
  plateau_Ft img = psums_from 0 (clipped_hist (calcHist img)).
Proof.
  unfold plateau_Ft. apply (np_cumsum_exact 16192).
  - apply clipped_hist_bounds.
  - rewrite length_clipped_hist. reflexivity.
Qed.

Lemma length_psums_from acc l : length (psums_from acc l) = length l.
Proof. revert acc. induction l; intros; simpl; auto. Qed.

Lemma last_psums_from acc l d :
  l <> [] -> List.last (psums_from acc l) d = acc + sumZ l.
Proof.
  revert acc. induction l as [|x l IH]; intros acc Hne; [congruence|].
  destruct l as [|y l]; [simpl; lia|].
  change (psums_from acc (x :: y :: l))
    with ((acc + x) :: psums_from (acc + x) (y :: l)).
  change (List.last ((acc + x) :: psums_from (acc + x) (y :: l)) d)
    with (List.last (psums_from (acc + x) (y :: l)) d).
  rewrite IH by congruence. simpl. lia.
Qed.

Lemma sumZ_nonneg l : Forall (fun x => 0 <= x) l -> 0 <= sumZ l.
Proof. induction 1; simpl; lia. Qed.

Lemma sumZ_ge_elem l x : Forall (fun x => 0 <= x) l -> In x l -> x <= sumZ l.
Proof.
  induction 1 as [|y l Hy Hl IH]; simpl; [tauto|].
  pose proof (sumZ_nonneg l Hl). intros [<-|Hx]; [lia|]. specialize (IH Hx). lia.
Qed.

Lemma psums_from_elem acc l x :
  Forall (fun x => 0 <= x) l -> In x (psums_from acc l) ->
  acc <= x <= acc + sumZ l.
Proof.
  intros Hl. revert acc. induction Hl as [|y l Hy Hl IH]; intros acc; simpl; [tauto|].
  pose proof (sumZ_nonneg l Hl). intros [<-|Hx]; [lia|].
  specialize (IH _ Hx). lia.
Qed.

Lemma psums_from_step acc l k :
  Forall (fun x => 0 <= x) l -> (S k < length l)%nat ->
  nth k (psums_from acc l) 0 <= nth (S k) (psums_from acc l) 0.
Proof.
  intros Hl. revert acc k. induction Hl as [|y l Hy Hl IH]; intros acc k Hk.
  - simpl in Hk. lia.
  - rewrite length_cons in Hk. destruct k as [|k].
    + destruct l as [|z l]; [simpl in Hk; lia|].
      inversion Hl; subst. simpl. lia.
    + cbn [psums_from nth]. apply IH. lia.
Qed.

Lemma clipped_hist_nonempty hist : clipped_hist hist <> [].
Proof.
  intros E. pose proof (length_clipped_hist hist) as H. rewrite E in H.
  discriminate H.
Qed.

(** [Ft[-1]] is the sum of the clipped histogram. *)
Lemma plateau_max_Ft_sum img :
  plateau_max_Ft img = sumZ (clipped_hist (calcHist img)).
Proof.
  unfold plateau_max_Ft. rewrite plateau_Ft_exact.
  rewrite last_psums_from by apply clipped_hist_nonempty. lia.
Qed.

Lemma length_plateau_Ft img : length (plateau_Ft img) = 256%nat.
Proof.
  rewrite plateau_Ft_exact, length_psums_from. apply length_clipped_hist.
Qed.

Lemma plateau_Ft_bounds img i :
  (i < 256)%nat -> 0 <= nth i (plateau_Ft img) 0 <= plateau_max_Ft img.
Proof.
  intros Hi. rewrite plateau_max_Ft_sum.
  assert (Hin : In (nth i (plateau_Ft img) 0) (plateau_Ft img))
    by (apply nth_In; now rewrite length_plateau_Ft).
  rewrite plateau_Ft_exact in Hin |- *.
  apply psums_from_elem in Hin; [lia | apply clipped_hist_nonneg].
Qed.

Lemma plateau_Ft_step img i :
  (i < 255)%nat -> nth i (plateau_Ft img) 0 <= nth (S i) (plateau_Ft img) 0.
Proof.
  intros Hi. rewrite plateau_Ft_exact.
  apply psums_from_step; [apply clipped_hist_nonneg|].
  rewrite length_clipped_hist. lia.
Qed.

Lemma sumZ_all_zero l : Forall (fun x => 0 <= x <= 0) l -> sumZ l = 0.
Proof. induction 1; simpl; lia. Qed.

Lemma peak_bins_spec hist i :
  In i (peak_bins hist) <->
  (1 <= i <= 254)%nat /\ strict_local_peak hist i = true.
Proof. unfold peak_bins. rewrite filter_In, in_seq. intuition lia. Qed.

Lemma sumZ_pos_inhabited (l : list nat) :
  0 < sumZ (map Z.of_nat l) -> exists i, In i l.
Proof.
  destruct l as [|i l]; simpl; [lia|]. intros _. exists i. now left.
Qed.

(** C5. The threshold used by [plateau_histogram] is the integer half of
    the sum of the bin indices [i] in 1..254 with
    [hist[i-1] < hist[i]] and [hist[i] > hist[i+1]]; every counted index
    lies in 1..254, so bins 0 and 255 are never counted. *)
Theorem plateau_threshold_is_half_peak_sum (img : image) :
  plateau_threshold (calcHist img) = spec_threshold (calcHist img) /\
  Forall (fun i => (1 <= i <= 254)%nat) (peak_bins (calcHist img)).
Proof.
  split.
  - unfold plateau_threshold, spec_threshold.
    pose proof (peak_index_sum_bounds (calcHist img)) as H.
    rewrite Z.quot_div_nonneg by lia.
    now rewrite peak_index_sum_spec.
  - apply Forall_forall. intros i Hi.
    apply list_elem_of_In, peak_bins_spec in Hi. tauto.
Qed.

(** A non-zero threshold comes from a counted peak, whose bin is higher
    than its left neighbour. *)
Lemma threshold_nonzero_peak hist :
  plateau_threshold hist <> 0 ->
  exists i, (1 <= i <= 254)%nat /\ bin hist (i - 1) < bin hist i.
Proof.
  intros Hne.
  assert (Hps : peak_index_sum hist <> 0).
  { intros E0. apply Hne. unfold plateau_threshold. rewrite E0. reflexivity. }
  pose proof (peak_index_sum_bounds hist) as Hb.
  rewrite peak_index_sum_spec in Hps, Hb.
  destruct (sumZ_pos_inhabited (peak_bins hist)) as (i & Hi); [lia|].
  apply peak_bins_spec in Hi. destruct Hi as [Hi Hpk].
  unfold strict_local_peak in Hpk. apply andb_true_iff in Hpk.
  destruct Hpk as [Hlt _]. apply Z.ltb_lt in Hlt.
  exists i. split; [exact Hi | exact Hlt].
Qed.

Lemma clipped_peak_pos img i :
  (1 <= i <= 254)%nat -> bin (calcHist img) (i - 1) < bin (calcHist img) i ->
  plateau_threshold (calcHist img) <> 0 ->
  0 < nth i (clipped_hist (calcHist img)) 0.
Proof.
  intros Hi Hlt Hne.
  pose proof (plateau_threshold_bounds (calcHist img)) as Hb.
  pose proof (bin_calcHist_nonneg img (i - 1)) as H0.
  rewrite nth_clipped_hist by lia. unfold clip_bin.
  destruct (_ >? _); lia.
Qed.

Lemma plateau_threshold_no_pixels img :
  data img = [] -> plateau_threshold (calcHist img) = 0.
Proof.
  destruct img as [r c d]. simpl. intros ->. vm_compute. reflexivity.
Qed.

(** C2, as the code has it. The total [Ft[255]] is zero exactly when the
    threshold is zero: the clipping then sets every occupied bin to 0.
    That is the case for every image without pixels, and also for images
    with pixels whose histogram has no strict local peak in bins 2..254. *)
Theorem plateau_total_zero_iff_threshold_zero (img : image) :
  (plateau_max_Ft img = 0 <-> plateau_threshold (calcHist img) = 0) /\
  (data img = [] -> plateau_max_Ft img = 0).
Proof.
  assert (Hiff : plateau_max_Ft img = 0 <-> plateau_threshold (calcHist img) = 0).
  { rewrite plateau_max_Ft_sum. split.
    - intros Hsum.
      destruct (Z.eq_dec (plateau_threshold (calcHist img)) 0) as [E|Hne]; [exact E|].
      exfalso.
      destruct (threshold_nonzero_peak _ Hne) as (i & Hi & Hlt).
      pose proof (clipped_peak_pos img i Hi Hlt Hne) as Hc.
      assert (Hin : In (nth i (clipped_hist (calcHist img)) 0)
                       (clipped_hist (calcHist img)))
        by (apply nth_In; rewrite length_clipped_hist; lia).
      pose proof (sumZ_ge_elem _ _ (clipped_hist_nonneg img) Hin). lia.
    - intros Ht. apply sumZ_all_zero.
      pose proof (clipped_hist_le_threshold img) as H. rewrite Ht in H. exact H. }
  split; [exact Hiff|].
  intros Hd. now apply Hiff, plateau_threshold_no_pixels.
Qed.

Lemma plateau_total_zero_iff_threshold_zero_witness :
  plateau_max_Ft (mkImage 0 7 []) = 0.
Proof.
  apply (plateau_total_zero_iff_threshold_zero (mkImage 0 7 [])). reflexivity.
Defined.

(** C2 fails as stated: the 1x1 image holding the value 0 has one pixel,
    and its clipped total [Ft[255]] is 0. *)
Lemma black_pixel_total_is_zero :
  wf_image black_pixel /\ length (data black_pixel) = 1%nat /\
  plateau_max_Ft black_pixel = 0.
Proof.
  split; [|split]; [|reflexivity|vm_compute; reflexivity].
  split; [reflexivity|]. repeat constructor; unfold is_u8; lia.
Qed.

(** ** Stage 2: the remap table *)

Lemma nth_map_lt {A B : Type} (f : A -> B) (l : list A) (i : nat) (d : B) (d' : A) :
  (i < length l)%nat -> nth i (map f l) d = f (nth i l d').
Proof.
  intros Hi. rewrite (nth_indep _ d (f d')) by now rewrite length_map.
  apply map_nth.
Qed.

Lemma nth_plateau_histogram img i :
  (i < 256)%nat ->
  nth i (plateau_histogram img) NaN =
  floor_divide (f32 (255 * nth i (plateau_Ft img) 0)) (plateau_max_Ft img).
Proof.
  intros Hi. unfold plateau_histogram.
  now rewrite (nth_map_lt _ _ _ _ 0) by now rewrite length_plateau_Ft.
Qed.

Lemma floor_divide_num a b : b <> 0 -> floor_divide a b = Num (a / b).
Proof.
  intros Hb. unfold floor_divide. destruct (b =? 0) eqn:E; [|reflexivity].
  apply Z.eqb_eq in E. contradiction.
Qed.

(** A rounded product [255 * F] with [F <= M] stays below [256 * M]. *)
Lemma remap_entry_bounds F M :
  0 <= F <= M -> 0 < M -> 0 <= f32 (255 * F) / M <= 255.
Proof.
  intros HF HM. split.
  - apply Z.div_pos; [apply f32_nonneg|]; lia.
  - assert (f32 (255 * F) / M < 256); [|lia].
    apply Z.div_lt_upper_bound; [exact HM|].
    pose proof (f32_mono (255 * F) (255 * M) ltac:(lia)).
    pose proof (f32_upper (255 * M) ltac:(lia)). lia.
Qed.

(** C4, as the code has it. When the clipped total [Ft[255]] is not zero,
    the remap table has 256 entries, each the float32 product
    [255 * Ft[i]] floor-divided by [Ft[255]], each a number in [0, 255],
    and the table is non-decreasing. *)
Theorem remap_table_range_monotone (img : image) :
  plateau_max_Ft img <> 0 ->
  length (plateau_histogram img) = 256%nat /\
  (forall i, (i < 256)%nat ->
     nth i (plateau_histogram img) NaN =
     Num (f32 (255 * nth i (plateau_Ft img) 0) / plateau_max_Ft img)) /\
  remap_in_range (plateau_histogram img) /\
  remap_monotone (plateau_histogram img).
Proof.
  intros HM.
  assert (Hpos : 0 < plateau_max_Ft img).
  { pose proof (plateau_Ft_bounds img 0 ltac:(lia)). lia. }
  assert (Hnth : forall i, (i < 256)%nat ->
     nth i (plateau_histogram img) NaN =
     Num (f32 (255 * nth i (plateau_Ft img) 0) / plateau_max_Ft img)).
  { intros i Hi. rewrite nth_plateau_histogram by exact Hi.
    now apply floor_divide_num. }
  split; [|split; [exact Hnth|split]].
  - unfold plateau_histogram. rewrite length_map. apply length_plateau_Ft.
  - intros i Hi. eexists. split; [apply Hnth, Hi|].
    apply remap_entry_bounds; [apply plateau_Ft_bounds, Hi | exact Hpos].
  - intros i Hi. eexists. eexists.
    split; [apply Hnth; lia|]. split; [apply Hnth; lia|].
    apply Z.div_le_mono; [exact Hpos|].
    apply f32_mono. pose proof (plateau_Ft_step img i Hi). lia.
Qed.

Lemma remap_table_range_monotone_witness :
  remap_in_range (plateau_histogram (uniform_image 5 5 128)).
Proof.
  apply (remap_table_range_monotone (uniform_image 5 5 128)).
  vm_compute. discriminate.
Defined.

(** C4 fails as stated: for the 1x1 image holding the value 0 every entry
    of the table is [0 // 0], which is nan and no number in [0, 255]. *)
Lemma black_pixel_table_is_nan :
  plateau_histogram black_pixel = repeat NaN 256 /\
  ~ remap_in_range (plateau_histogram black_pixel).
Proof.
  assert (E : plateau_histogram black_pixel = repeat NaN 256)
    by (vm_compute; reflexivity).
  split; [exact E|].
  intros H. destruct (H 0%nat ltac:(lia)) as (z & Hz & _).
  rewrite E in Hz. discriminate Hz.
Qed.

(** ** The uniform 5x5 image of value 128 *)

(** C3, as the code has it. On the uniform 5x5 image of value 128 the
    filter keeps the 3x3 interior at 128 and sets the border to 0.  The
    histogram stage on the uniform image finds bin 128 as the one strict
    local peak, so the threshold is 64; the bin's count 25 does not exceed
    it and stays 25; [Ft] is 0 below bin 128 and 25, the number of pixels,
    from bin 128 on; the table maps 0..127 to 0 and 128..255 to 255. *)
Theorem uniform_128_scenario :
  adaptive_median_filter uniform_128 =
    mkImage 5 5 [0; 0; 0; 0; 0;
                 0; 128; 128; 128; 0;
                 0; 128; 128; 128; 0;
                 0; 128; 128; 128; 0;
                 0; 0; 0; 0; 0] /\
  plateau_threshold (calcHist uniform_128) = 64 /\
  clipped_hist (calcHist uniform_128) = repeat 0 128 ++ [25] ++ repeat 0 127 /\
  plateau_Ft uniform_128 = repeat 0 128 ++ repeat 25 128 /\
  plateau_histogram uniform_128 = repeat (Num 0) 128 ++ repeat (Num 255) 128.
Proof.
  repeat split; vm_compute; reflexivity.
Qed.

(** C3 fails as stated: the threshold of the uniform image is not 0, and
    its occupied bin is not clipped to 0. *)
Lemma uniform_128_threshold_not_zero :
  plateau_threshold (calcHist uniform_128) <> 0 /\
  nth 128 (clipped_hist (calcHist uniform_128)) 0 <> 0.
Proof.
  split; vm_compute; discriminate.
Qed.

(** ** The enhancement loop: hoisting the table *)

Section Hoisting.
Variables nan_u8 inf_u8 : Z.
Variable filtered : image.

Let Dt := plateau_histogram filtered.

Lemma enhance_row_hoisted (i : nat) (js : list nat) (enhanced : image) :
  fold_left (fun st j => enhance_pixel nan_u8 inf_u8 st i j) js
            (mkEnhance filtered enhanced) =
  mkEnhance filtered
    (fold_left
       (fun e j =>
          set_px e i j (store_u8 nan_u8 inf_u8 (lookup_table Dt (px filtered i j))))
       js enhanced).
Proof.
  revert enhanced. induction js as [|j js IH]; intros enhanced; [reflexivity|].
  cbn [fold_left]. unfold enhance_pixel at 2. cbn [filtered_image enhanced_image].
  apply IH.
Qed.

Lemma enhance_rows_hoisted (ris js : list nat) (enhanced : image) :
  fold_left
    (fun st i => fold_left (fun st' j => enhance_pixel nan_u8 inf_u8 st' i j) js st)
    ris (mkEnhance filtered enhanced) =
  mkEnhance filtered
    (fold_left
       (fun e i =>
          fold_left
            (fun e' j =>
               set_px e' i j
                      (store_u8 nan_u8 inf_u8 (lookup_table Dt (px filtered i j))))
            js e)
       ris enhanced).
Proof.
  revert enhanced. induction ris as [|i ris IH]; intros enhanced; [reflexivity|].
  cbn [fold_left]. rewrite enhance_row_hoisted. apply IH.
Qed.
End Hoisting.

(** C8. Recomputing the remap table for every pixel, as [process_image]
    does, yields the same enhanced image as computing the table once and
    doing one lookup per pixel. *)
Theorem enhance_hoisting_equivalent (nan_u8 inf_u8 : Z) (filtered : image) :
  enhance nan_u8 inf_u8 filtered = enhance_hoisted nan_u8 inf_u8 filtered.
Proof.
  unfold enhance, enhance_hoisted. now rewrite enhance_rows_hoisted.
Qed.

(** ** Stage 3: edge sharpening saturates *)

Lemma wf_imageb_correct img : wf_imageb img = true -> wf_image img.
Proof.
  unfold wf_imageb, wf_image. intros H. apply andb_true_iff in H.
  destruct H as [Hl Hf]. split; [now apply Nat.eqb_eq|].
  apply Forall_forall. intros v Hv. apply list_elem_of_In in Hv.
  rewrite forallb_forall in Hf. specialize (Hf v Hv).
  apply andb_true_iff in Hf. unfold is_u8. lia.
Qed.

Lemma px_lookup img i j v :
  data img !! (i * cols img + j)%nat = Some v -> px img i j = v.
Proof. unfold px. now intros ->. Qed.

Lemma px_in_shape img i j :
  shape_ok img -> (i < rows img)%nat -> (j < cols img)%nat ->
  exists v, data img !! (i * cols img + j)%nat = Some v.
Proof.
  intros Hs Hi Hj. apply lookup_lt_is_Some_2. rewrite Hs.
  now apply flat_index_lt.
Qed.

Lemma px_is_u8 img i j : wf_image img -> is_u8 (px img i j).
Proof.
  intros [_ Hu]. unfold px.
  destruct (data img !! (i * cols img + j)%nat) as [v|] eqn:E; simpl.
  - exact (Forall_lookup_1 _ _ _ _ Hu E).
  - unfold is_u8. lia.
Qed.

(** A pixel of an element-wise combination of two images of one shape. *)
Lemma px_zip_with (f : Z -> Z -> Z) (a b : image) i j :
  shape_ok a -> shape_ok b -> rows b = rows a -> cols b = cols a ->
  (i < rows a)%nat -> (j < cols a)%nat ->
  px (mkImage (rows a) (cols a) (zip_with f (data a) (data b))) i j =
  f (px a i j) (px b i j).
Proof.
  intros Ha Hb Hr Hc Hi Hj.
  destruct (px_in_shape a i j Ha Hi Hj) as (x & Hx).
  destruct (px_in_shape b i j Hb) as (y & Hy); [lia | lia |].
  rewrite (px_lookup a i j x Hx). rewrite (px_lookup b i j y Hy).
  apply px_lookup. simpl. rewrite lookup_zip_with.
  rewrite Hc in Hy. rewrite Hx, Hy. reflexivity.
Qed.

Lemma shape_ok_zip_with (f : Z -> Z -> Z) (a b : image) :
  shape_ok a -> shape_ok b -> rows b = rows a -> cols b = cols a ->
  shape_ok (mkImage (rows a) (cols a) (zip_with f (data a) (data b))).
Proof.
  unfold shape_ok. simpl. intros Ha Hb Hr Hc.
  rewrite length_zip_with, Ha, Hb, Hr, Hc. lia.
Qed.

Lemma px_edge_sharpening (blur : image -> image) img i j :
  shape_ok img -> shape_ok (blur img) ->
  rows (blur img) = rows img -> cols (blur img) = cols img ->
  (i < rows img)%nat -> (j < cols img)%nat ->
  px (edge_sharpening blur img) i j =
  saturate_u8 (px img i j + saturate_u8 (px img i j - px (blur img) i j)).
Proof.
  intros Hs Hsb Hr Hc Hi Hj. unfold edge_sharpening, cv_add.
  rewrite px_zip_with; trivial.
  - unfold cv_subtract. now rewrite px_zip_with.
  - now apply shape_ok_zip_with.
Qed.

(** C6. Whatever image of the same shape the blur returns, each pixel of
    the sharpened image is the original plus (clipped above at 255) the
    original minus the blurred (clipped below at 0), and lies in
    [0, 255]. *)
Theorem edge_sharpening_saturates (blur : image -> image) (img : image) (i j : nat) :
  wf_image img -> wf_image (blur img) ->
  rows (blur img) = rows img -> cols (blur img) = cols img ->
  (i < rows img)%nat -> (j < cols img)%nat ->
  px (edge_sharpening blur img) i j =
    saturating_add (px img i j)
      (saturating_subtract (px img i j) (px (blur img) i j)) /\
  0 <= px (edge_sharpening blur img) i j <= 255.
Proof.
  intros Hw Hwb Hr Hc Hi Hj.
  rewrite px_edge_sharpening by auto using wf_shape_ok.
  pose proof (px_is_u8 img i j Hw) as Ha.
  pose proof (px_is_u8 (blur img) i j Hwb) as Hb.
  unfold is_u8, saturating_add, saturating_subtract, saturate_u8 in *. lia.
Qed.

Lemma edge_sharpening_saturates_witness :
  px (edge_sharpening box_blur strip_1x5) 0 3 = 255 /\
  0 <= px (edge_sharpening box_blur strip_1x5) 0 3 <= 255.
Proof.
  apply (edge_sharpening_saturates box_blur strip_1x5 0 3);
    first [ apply wf_imageb_correct; vm_compute; reflexivity
          | reflexivity
          | simpl; lia ].
Defined.

(** C9. Sharpening never darkens a pixel: each pixel of the sharpened
    image is at least the input's. *)
Theorem edge_sharpening_never_darkens (blur : image -> image) (img : image) (i j : nat) :
  wf_image img -> wf_image (blur img) ->
  rows (blur img) = rows img -> cols (blur img) = cols img ->
  (i < rows img)%nat -> (j < cols img)%nat ->
  px img i j <= px (edge_sharpening blur img) i j.
Proof.
  intros Hw Hwb Hr Hc Hi Hj.
  rewrite px_edge_sharpening by auto using wf_shape_ok.
  pose proof (px_is_u8 img i j Hw) as Ha.
  unfold is_u8, saturate_u8 in *. lia.
Qed.

Lemma edge_sharpening_never_darkens_witness :
  px strip_1x5 0 2 <= px (edge_sharpening box_blur strip_1x5) 0 2.
Proof.
  apply (edge_sharpening_never_darkens box_blur strip_1x5 0 2);
    first [ apply wf_imageb_correct; vm_compute; reflexivity
          | reflexivity
          | simpl; lia ].
Defined.

(** ** Stage 4: palette inversion *)

Lemma bitwise_not_u8_sub v : is_u8 v -> bitwise_not_u8 v = 255 - v.
Proof.
  unfold is_u8, bitwise_not_u8, Z.lnot. intros Hv.
  replace (Z.land (Z.pred (- v)) 255) with (Z.pred (- v) mod 2 ^ 8)
    by (symmetry; apply (Z.land_ones _ 8); lia).
  symmetry. apply (Z.mod_unique _ _ (-1)); lia.
Qed.

Lemma bitwise_not_u8_involutive v : is_u8 v -> bitwise_not_u8 (bitwise_not_u8 v) = v.
Proof.
  intros Hv. rewrite (bitwise_not_u8_sub v Hv).
  rewrite bitwise_not_u8_sub; unfold is_u8 in *; lia.
Qed.

Lemma map_bitwise_not_involutive l :
  Forall is_u8 l -> map bitwise_not_u8 (map bitwise_not_u8 l) = l.
Proof.
  induction 1 as [|v l Hv Hl IH]; simpl; [reflexivity|].
  now rewrite bitwise_not_u8_involutive, IH.
Qed.

(** C7. Palette optimisation maps each pixel [v] to [255 - v], and
    applying it twice gives the image back; on single values,
    inverting twice is the identity on 0..255. *)
Theorem optimize_palette_inverts (img : image) (i j : nat) :
  wf_image img -> (i < rows img)%nat -> (j < cols img)%nat ->
  px (optimize_palette img) i j = 255 - px img i j /\
  optimize_palette (optimize_palette img) = img /\
  (forall v, is_u8 v -> bitwise_not_u8 (bitwise_not_u8 v) = v).
Proof.
  intros Hw Hi Hj. split; [|split].
  - destruct (px_in_shape img i j (wf_shape_ok img Hw) Hi Hj) as (v & Hv).
    rewrite (px_lookup img i j v Hv).
    rewrite <- (bitwise_not_u8_sub v)
      by (destruct Hw as [_ Hu]; exact (Forall_lookup_1 _ _ _ _ Hu Hv)).
    apply px_lookup. unfold optimize_palette. simpl.
    change (map bitwise_not_u8 (data img)) with (bitwise_not_u8 <$> data img).
    now rewrite list_lookup_fmap, Hv.
  - destruct img as [r c d]. destruct Hw as [_ Hu]. unfold optimize_palette.
    simpl in *. now rewrite map_bitwise_not_involutive.
  - apply bitwise_not_u8_involutive.
Qed.

Lemma optimize_palette_inverts_witness :
  px (optimize_palette strip_1x5) 0 2 = 255 - px strip_1x5 0 2 /\
  optimize_palette (optimize_palette strip_1x5) = strip_1x5.
Proof.
  destruct (optimize_palette_inverts strip_1x5 0 2) as (H1 & H2 & _);
    first [ apply wf_imageb_correct; vm_compute; reflexivity
          | simpl; lia
          | idtac ].
  split; [exact H1 | exact H2].
Defined.

(** * Further properties *)

(** ** Images position by position *)

Lemma flat_index_split (r c k : nat) :
  (k < r * c)%nat ->
  exists i j, (i < r)%nat /\ (j < c)%nat /\ k = (i * c + j)%nat.
Proof.
  intros Hk. assert (Hc : c <> 0%nat) by (intros ->; lia).
  exists (k / c)%nat, (k mod c)%nat. split; [|split].
  - apply Nat.Div0.div_lt_upper_bound. lia.
  - now apply Nat.mod_upper_bound.
  - pose proof (Nat.div_mod_eq k c). lia.
Qed.

Lemma Forall_px (P : Z -> Prop) img :
  shape_ok img ->
  (forall i j, (i < rows img)%nat -> (j < cols img)%nat -> P (px img i j)) ->
  Forall P (data img).
Proof.
  intros Hs H. apply Forall_lookup. intros k v Hk.
  pose proof (lookup_lt_Some _ _ _ Hk) as Hlt. rewrite Hs in Hlt.
  destruct (flat_index_split _ _ _ Hlt) as (i & j & Hi & Hj & ->).
  rewrite <- (px_lookup img i j v Hk). now apply H.
Qed.

Lemma image_ext (a b : image) :
  shape_ok a -> shape_ok b -> rows a = rows b -> cols a = cols b ->
  (forall i j, (i < rows a)%nat -> (j < cols a)%nat -> px a i j = px b i j) ->
  a = b.
Proof.
  destruct a as [r c d], b as [r' c' d']. unfold shape_ok, px. simpl.
  intros Ha Hb -> -> H. f_equal. apply list_eq. intros k.
  destruct (Nat.lt_ge_cases k (r' * c')) as [Hlt|Hge].
  - destruct (flat_index_split _ _ _ Hlt) as (i & j & Hi & Hj & ->).
    specialize (H i j Hi Hj).
    destruct (lookup_lt_is_Some_2 d (i * c' + j)) as [x Hx]; [lia|].
    destruct (lookup_lt_is_Some_2 d' (i * c' + j)) as [y Hy]; [lia|].
    rewrite Hx, Hy in *. simpl in H. now subst.
  - rewrite !lookup_ge_None_2 by lia. reflexivity.
Qed.

(** ** Stage 1 keeps images well formed and is idempotent *)

Lemma adaptive_median_filter_shape img :
  rows (adaptive_median_filter img) = rows img /\
  cols (adaptive_median_filter img) = cols img /\
  shape_ok (adaptive_median_filter img).
Proof.
  rewrite adaptive_median_filter_as_loop.
  destruct (write_loop_shape (filtered_value img) (range 1 (rows img - 1))
              (range 1 (cols img - 1)) (zeros_like img)) as (Hr & Hc & Hs).
  repeat split; trivial. apply Hs, shape_ok_zeros_like.
Qed.

Lemma px_adaptive_median_filter_copy img i j :
  (j < cols img)%nat ->
  px (adaptive_median_filter img) i j =
  if decide (i ∈ range 1 (rows img - 1) /\ j ∈ range 1 (cols img - 1))
  then px img i j else 0.
Proof.
  intros Hj. rewrite px_adaptive_median_filter by exact Hj.
  destruct (decide _) as [[Hri Hrj]|]; [|reflexivity].
  rewrite in_range in Hri, Hrj. unfold filtered_value.
  now rewrite replace_branch_dead by lia.
Qed.

(** X1. The filter maps a well-formed image (one value in 0..255 per
    position of its shape) to a well-formed image of the same shape. *)
Theorem adaptive_median_filter_wf (img : image) :
  wf_image img ->
  wf_image (adaptive_median_filter img) /\
  rows (adaptive_median_filter img) = rows img /\
  cols (adaptive_median_filter img) = cols img.
Proof.
  intros Hw. destruct (adaptive_median_filter_shape img) as (Hr & Hc & Hs).
  split; [|split; trivial]. split; [exact Hs|].
  apply Forall_px; [exact Hs|]. intros i j Hi Hj. rewrite Hc in Hj.
  rewrite px_adaptive_median_filter_copy by exact Hj.
  destruct (decide _); [now apply px_is_u8 | unfold is_u8; lia].
Qed.

Lemma adaptive_median_filter_wf_witness :
  wf_image (adaptive_median_filter ramp_3x4).
Proof.
  apply (adaptive_median_filter_wf ramp_3x4).
  apply wf_imageb_correct. vm_compute. reflexivity.
Defined.

(** X2. Filtering a second time changes nothing: the interior is copied
    again and the border is already 0. *)
Theorem adaptive_median_filter_idempotent (img : image) :
  adaptive_median_filter (adaptive_median_filter img) = adaptive_median_filter img.
Proof.
  destruct (adaptive_median_filter_shape img) as (Hr & Hc & Hs).
  destruct (adaptive_median_filter_shape (adaptive_median_filter img))
    as (Hr' & Hc' & Hs').
  apply image_ext; trivial. intros i j Hi Hj.
  rewrite Hc', Hc in Hj.
  rewrite (px_adaptive_median_filter_copy (adaptive_median_filter img))
    by (now rewrite Hc).
  rewrite Hr, Hc.
  rewrite (px_adaptive_median_filter_copy img) by exact Hj.
  now destruct (decide _).
Qed.

(** ** The histogram counts every pixel once *)

Lemma sumZ_map_add {A : Type} (f g : A -> Z) (l : list A) :
  sumZ (map (fun x => f x + g x) l) = sumZ (map f l) + sumZ (map g l).
Proof. induction l as [|x l IH]; simpl; lia. Qed.

Lemma sumZ_map_zero {A : Type} (l : list A) : sumZ (map (fun _ => 0) l) = 0.
Proof. induction l as [|x l IH]; simpl; lia. Qed.

Lemma sumZ_indicator (x : Z) (a n : nat) :
  sumZ (map (fun v => if Z.eq_dec x (Z.of_nat v) then 1 else 0) (seq a n)) =
  if (Z.of_nat a <=? x) && (x <? Z.of_nat (a + n)) then 1 else 0.
Proof.
  revert a. induction n as [|n IH]; intros a.
  - simpl. destruct (Z.leb_spec (Z.of_nat a) x), (Z.ltb_spec x (Z.of_nat (a + 0)));
      simpl; lia.
  - simpl. rewrite IH.
    destruct (Z.eq_dec x (Z.of_nat a)),
             (Z.leb_spec (Z.of_nat (S a)) x), (Z.ltb_spec x (Z.of_nat (S a + n))),
             (Z.leb_spec (Z.of_nat a) x), (Z.ltb_spec x (Z.of_nat (a + S n)));
      simpl; lia.
Qed.

Lemma sum_count_occ (l : list Z) :
  Forall is_u8 l ->
  sumZ (map (fun v => Z.of_nat (count_occ Z.eq_dec l (Z.of_nat v))) (seq 0 256)) =
  Z.of_nat (length l).
Proof.
  induction 1 as [|x l Hx Hl IH].
  - apply (sumZ_map_zero (seq 0 256)).
  - rewrite (map_ext _ (fun v => (if Z.eq_dec x (Z.of_nat v) then 1 else 0)
                                 + Z.of_nat (count_occ Z.eq_dec l (Z.of_nat v)))).
    + rewrite sumZ_map_add, IH, sumZ_indicator, length_cons.
      unfold is_u8 in Hx.
      destruct (Z.leb_spec (Z.of_nat 0) x), (Z.ltb_spec x (Z.of_nat (0 + 256)));
        simpl andb; cbv iota; lia.
    + intros v. cbn [count_occ]. destruct (Z.eq_dec x (Z.of_nat v)); lia.
Qed.

Lemma calcHist_exact img :
  Z.of_nat (length (data img)) < 2 ^ 24 ->
  calcHist img =
  map (fun v => Z.of_nat (count_occ Z.eq_dec (data img) (Z.of_nat v))) (seq 0 256).
Proof.
  intros Hn. unfold calcHist. change (range 0 256) with (seq 0 256).
  apply map_ext. intros v. apply f32_small.
  pose proof (count_occ_bound Z.eq_dec (Z.of_nat v) (data img)). lia.
Qed.

(** X3. For a well-formed image of fewer than [2^24] pixels the 256 bins
    of the histogram add up to the number of pixels. *)
Theorem histogram_counts_every_pixel (img : image) :
  wf_image img -> Z.of_nat (rows img * cols img) < 2 ^ 24 ->
  length (calcHist img) = 256%nat /\
  sumZ (calcHist img) = Z.of_nat (rows img * cols img).
Proof.
  intros [Hlen Hu] Hn. split; [apply length_calcHist|].
  rewrite <- Hlen in Hn |- *. rewrite calcHist_exact by exact Hn.
  now apply sum_count_occ.
Qed.

Lemma histogram_counts_every_pixel_witness :
  sumZ (calcHist ramp_3x4) = 12.
Proof.
  apply (histogram_counts_every_pixel ramp_3x4).
  - apply wf_imageb_correct. vm_compute. reflexivity.
  - reflexivity.
Defined.

(** ** When the table is not a number *)

Lemma plateau_max_Ft_zero_iff img :
  plateau_max_Ft img = 0 <-> plateau_threshold (calcHist img) = 0.
Proof.
  rewrite plateau_max_Ft_sum. split.
  - intros Hsum.
    destruct (Z.eq_dec (plateau_threshold (calcHist img)) 0) as [E|Hne]; [exact E|].
    exfalso.
    destruct (threshold_nonzero_peak _ Hne) as (i & Hi & Hlt).
    pose proof (clipped_peak_pos img i Hi Hlt Hne) as Hc.
    assert (Hin : In (nth i (clipped_hist (calcHist img)) 0)
                     (clipped_hist (calcHist img)))
      by (apply nth_In; rewrite length_clipped_hist; lia).
    pose proof (sumZ_ge_elem _ _ (clipped_hist_nonneg img) Hin). lia.
  - intros Ht. apply sumZ_all_zero.
    pose proof (clipped_hist_le_threshold img) as H. rewrite Ht in H. exact H.
Qed.

Lemma map_constant {A B : Type} (f : A -> B) (c : B) (l : list A) :
  Forall (fun x => f x = c) l -> map f l = repeat c (length l).
Proof. induction 1 as [|x l Hx Hl IH]; simpl; [reflexivity|]. now rewrite Hx, IH. Qed.

Lemma plateau_histogram_nan img :
  plateau_max_Ft img = 0 -> plateau_histogram img = repeat NaN 256.
Proof.
  intros HM. unfold plateau_histogram.
  rewrite <- (length_plateau_Ft img). apply map_constant.
  apply Forall_forall. intros F HF. apply list_elem_of_In in HF.
  assert (HF0 : F = 0).
  { pose proof (plateau_max_Ft_sum img) as Hs.
    rewrite plateau_Ft_exact in HF.
    apply psums_from_elem in HF; [lia | apply clipped_hist_nonneg]. }
  subst F. rewrite HM. reflexivity.
Qed.

Lemma filter_all_false {A : Type} (p : A -> bool) (l : list A) :
  (forall x, In x l -> p x = false) -> List.filter p l = [].
Proof.
  induction l as [|x l IH]; intros H; [reflexivity|].
  cbn [List.filter]. rewrite (H x) by now left.
  apply IH. intros y Hy. apply H. now right.
Qed.

Lemma filter_cons_if {A : Type} (p : A -> bool) (x : A) (l : list A) :
  List.filter p (x :: l) = (if p x then [x] else []) ++ List.filter p l.
Proof. cbn [List.filter]. now destruct (p x). Qed.

Lemma peak_bins_head hist :
  peak_bins hist =
  (if strict_local_peak hist 1 then [1%nat] else []) ++
  List.filter (strict_local_peak hist) (seq 2 253).
Proof.
  unfold peak_bins. rewrite <- (cons_seq 253 1). apply filter_cons_if.
Qed.

Lemma plateau_threshold_zero_iff hist :
  plateau_threshold hist = 0 <->
  forall i, (2 <= i <= 254)%nat -> is_peak hist i = false.
Proof.
  unfold plateau_threshold.
  pose proof (peak_index_sum_bounds hist) as Hb.
  rewrite Z.quot_small_iff by lia.
  rewrite peak_index_sum_spec in *.
  split.
  - intros Hs i Hi. rewrite is_peak_strict_local_peak.
    destruct (strict_local_peak hist i) eqn:E; [|reflexivity]. exfalso.
    assert (Hin : In (Z.of_nat i) (map Z.of_nat (peak_bins hist))).
    { apply in_map, peak_bins_spec. split; [lia | exact E]. }
    assert (Hnn : Forall (fun x => 0 <= x) (map Z.of_nat (peak_bins hist))).
    { apply Forall_forall. intros x Hx. apply list_elem_of_In, in_map_iff in Hx.
      destruct Hx as (k & <- & _). lia. }
    pose proof (sumZ_ge_elem _ _ Hnn Hin). lia.
  - intros Hno. rewrite peak_bins_head, filter_all_false, app_nil_r.
    + destruct (strict_local_peak hist 1); simpl; lia.
    + intros i Hi. apply in_seq in Hi.
      rewrite <- is_peak_strict_local_peak. apply Hno. lia.
Qed.

(** X4. The remap table is all nan, the result of dividing by a zero
    total, exactly when the histogram has no strict local peak among the
    bins 2..254. *)
Theorem plateau_histogram_nan_iff_no_peak (img : image) :
  plateau_histogram img = repeat NaN 256 <->
  forall i, (2 <= i <= 254)%nat -> is_peak (calcHist img) i = false.
Proof.
  rewrite <- plateau_threshold_zero_iff, <- plateau_max_Ft_zero_iff.
  split; [|apply plateau_histogram_nan].
  intros E. destruct (Z.eq_dec (plateau_max_Ft img) 0) as [H0|Hne]; [exact H0|].
  exfalso.
  assert (HN : nth 0 (plateau_histogram img) NaN = NaN)
    by (rewrite E; reflexivity).
  rewrite nth_plateau_histogram in HN by lia.
  rewrite floor_divide_num in HN by exact Hne. discriminate HN.
Qed.

(** ** Entries of the remap table *)

Lemma f32_lower z : 0 <= z -> (2 ^ 24 - 1) * z <= 2 ^ 24 * f32 z.
Proof.
  intros H. destruct (Z.lt_ge_cases z (2 ^ 24)) as [Hs|Hb].
  - rewrite f32_small; lia.
  - destruct (f32_big z Hb) as [u q r Hu Hbin Hz Hr Hq Hround].
    assert (2 ^ 23 * u <= q * u) by (apply Z.mul_le_mono_nonneg_r; lia).
    lia.
Qed.

Lemma nth_psums_from_map_seq (g : nat -> Z) (n a i : nat) (acc : Z) :
  (i < n)%nat ->
  nth i (psums_from acc (map g (seq a n))) 0 = acc + sumZ (map g (seq a (S i))).
Proof.
  revert a i acc. induction n as [|n IH]; intros a i acc Hi; [lia|].
  cbn [seq map psums_from]. destruct i as [|i].
  - simpl. lia.
  - cbn [nth]. rewrite IH by lia.
    change (seq a (S (S i))) with (a :: seq (S a) (S i)).
    cbn [map sumZ fold_right]. fold (sumZ (map g (seq (S a) (S i)))). lia.
Qed.

Lemma sumZ_app l1 l2 : sumZ (l1 ++ l2) = sumZ l1 + sumZ l2.
Proof. induction l1 as [|x l1 IH]; simpl; lia. Qed.

Lemma sumZ_map_seq_split (g : nat -> Z) (a n m : nat) :
  sumZ (map g (seq a (n + m))) =
  sumZ (map g (seq a n)) + sumZ (map g (seq (a + n) m)).
Proof. now rewrite seq_app, map_app, sumZ_app. Qed.

Lemma sumZ_map_seq_zero (g : nat -> Z) (a n : nat) :
  (forall k, (a <= k < a + n)%nat -> g k = 0) -> sumZ (map g (seq a n)) = 0.
Proof.
  revert a. induction n as [|n IH]; intros a H; [reflexivity|].
  cbn [seq map sumZ fold_right]. fold (sumZ (map g (seq (S a) n))).
  rewrite IH by (intros k Hk; apply H; lia). rewrite H by lia. reflexivity.
Qed.

Lemma nth_plateau_Ft img i :
  (i < 256)%nat ->
  nth i (plateau_Ft img) 0 = sumZ (map (clipped_bin img) (seq 0 (S i))).
Proof.
  intros Hi. rewrite plateau_Ft_exact. unfold clipped_hist.
  change (range 0 256) with (seq 0 256).
  rewrite (nth_psums_from_map_seq (clipped_bin img)) by exact Hi. lia.
Qed.

Lemma plateau_max_Ft_seq img :
  plateau_max_Ft img = sumZ (map (clipped_bin img) (seq 0 256)).
Proof. rewrite plateau_max_Ft_sum. reflexivity. Qed.

Lemma nth_plateau_Ft_last img : nth 255 (plateau_Ft img) 0 = plateau_max_Ft img.
Proof. rewrite nth_plateau_Ft by lia. now rewrite plateau_max_Ft_seq. Qed.

Lemma clipped_bin_empty img k :
  bin (calcHist img) k = 0 -> clipped_bin img k = 0.
Proof.
  intros H. unfold clipped_bin. rewrite H.
  pose proof (plateau_threshold_bounds (calcHist img)).
  unfold clip_bin. destruct (0 >? _) eqn:E; lia.
Qed.

Lemma bin_absent_value img k :
  (k < 256)%nat -> ~ In (Z.of_nat k) (data img) -> bin (calcHist img) k = 0.
Proof.
  intros Hk Hn. rewrite bin_calcHist by exact Hk.
  apply (count_occ_not_In Z.eq_dec) in Hn. rewrite Hn. reflexivity.
Qed.

Lemma table_below_pixels img i :
  (i < 256)%nat -> plateau_max_Ft img <> 0 ->
  Forall (fun v => Z.of_nat i < v) (data img) ->
  nth i (plateau_histogram img) NaN = Num 0.
Proof.
  intros Hi HM Hdark. rewrite nth_plateau_histogram by exact Hi.
  rewrite floor_divide_num by exact HM.
  rewrite nth_plateau_Ft by exact Hi.
  rewrite sumZ_map_seq_zero; [reflexivity|].
  intros k Hk. apply clipped_bin_empty, bin_absent_value; [lia|].
  intros Hin. rewrite Forall_forall in Hdark.
  apply list_elem_of_In, Hdark in Hin. lia.
Qed.

Lemma table_above_pixels img i :
  (i < 256)%nat -> Forall (fun v => v <= Z.of_nat i) (data img) ->
  nth i (plateau_histogram img) NaN = nth 255 (plateau_histogram img) NaN.
Proof.
  intros Hi Hbright.
  assert (E : nth i (plateau_Ft img) 0 = plateau_max_Ft img).
  { rewrite nth_plateau_Ft by exact Hi. rewrite plateau_max_Ft_seq.
    pose proof (sumZ_map_seq_split (clipped_bin img) 0 (S i) (255 - i)) as Hsplit.
    replace (S i + (255 - i))%nat with 256%nat in Hsplit by lia.
    rewrite Hsplit.
    rewrite (sumZ_map_seq_zero _ (0 + S i)); [lia|].
    intros k Hk. apply clipped_bin_empty, bin_absent_value; [lia|].
    intros Hin. rewrite Forall_forall in Hbright.
    apply list_elem_of_In, Hbright in Hin. lia. }
  rewrite !nth_plateau_histogram by lia.
  now rewrite nth_plateau_Ft_last, E.
Qed.

(** X5. Table entries outside the range of pixel values: a bin below every
    pixel value maps to 0 (when the table holds numbers), and a bin at or
    above every pixel value maps to the same output as bin 255. *)
Theorem remap_outside_pixel_range (img : image) (i : nat) :
  (i < 256)%nat ->
  (plateau_max_Ft img <> 0 ->
   Forall (fun v => Z.of_nat i < v) (data img) ->
   nth i (plateau_histogram img) NaN = Num 0) /\
  (Forall (fun v => v <= Z.of_nat i) (data img) ->
   nth i (plateau_histogram img) NaN = nth 255 (plateau_histogram img) NaN).
Proof.
  intros Hi. split.
  - now apply table_below_pixels.
  - now apply table_above_pixels.
Qed.

Lemma remap_outside_pixel_range_witness :
  nth 100 (plateau_histogram uniform_128) NaN = Num 0 /\
  nth 200 (plateau_histogram uniform_128) NaN =
  nth 255 (plateau_histogram uniform_128) NaN.
Proof.
  split.
  - apply (remap_outside_pixel_range uniform_128 100); [lia | |].
    + vm_compute. discriminate.
    + repeat constructor.
  - apply (remap_outside_pixel_range uniform_128 200); [lia|].
    repeat constructor; discriminate.
Defined.

Lemma table_last_exact img :
  plateau_max_Ft img <> 0 -> plateau_max_Ft img <= 65793 ->
  nth 255 (plateau_histogram img) NaN = Num 255.
Proof.
  intros HM Hsmall.
  pose proof (plateau_Ft_bounds img 0 ltac:(lia)).
  rewrite nth_plateau_histogram by lia. rewrite nth_plateau_Ft_last.
  rewrite floor_divide_num by exact HM. rewrite f32_small by lia.
  f_equal. apply Z.div_mul. lia.
Qed.

(** X6. When the table holds numbers its last entry is 254 or 255; it is
    255 whenever the clipped total is at most 65793, so that [255 * Ft] is
    exact in float32. *)
Theorem remap_last_entry (img : image) :
  plateau_max_Ft img <> 0 ->
  exists z, nth 255 (plateau_histogram img) NaN = Num z /\
            254 <= z <= 255 /\
            (plateau_max_Ft img <= 65793 -> z = 255).
Proof.
  intros HM.
  assert (Hpos : 0 < plateau_max_Ft img).
  { pose proof (plateau_Ft_bounds img 0 ltac:(lia)). lia. }
  eexists. split; [|split].
  - rewrite nth_plateau_histogram by lia. rewrite nth_plateau_Ft_last.
    now apply floor_divide_num.
  - split.
    + apply Z.div_le_lower_bound; [exact Hpos|].
      pose proof (f32_lower (255 * plateau_max_Ft img) ltac:(lia)). lia.
    + apply remap_entry_bounds; lia.
  - intros Hsmall. rewrite f32_small by lia.
    apply Z.div_mul. lia.
Qed.

Lemma remap_last_entry_witness :
  exists z, nth 255 (plateau_histogram uniform_128) NaN = Num z /\
            254 <= z <= 255 /\
            (plateau_max_Ft uniform_128 <= 65793 -> z = 255).
Proof.
  apply (remap_last_entry uniform_128). vm_compute. discriminate.
Defined.

(** ** The enhanced image, pixel by pixel *)

Lemma enhance_as_loop nan_u8 inf_u8 filtered :
  enhance nan_u8 inf_u8 filtered =
  write_loop
    (fun i j => store_u8 nan_u8 inf_u8
                  (lookup_table (plateau_histogram filtered) (px filtered i j)))
    (range 0 (rows filtered)) (range 0 (cols filtered)) (zeros_like filtered).
Proof. unfold enhance. now rewrite enhance_rows_hoisted. Qed.

Lemma enhance_shape nan_u8 inf_u8 filtered :
  rows (enhance nan_u8 inf_u8 filtered) = rows filtered /\
  cols (enhance nan_u8 inf_u8 filtered) = cols filtered /\
  shape_ok (enhance nan_u8 inf_u8 filtered).
Proof.
  rewrite enhance_as_loop.
  match goal with |- context [write_loop ?g ?r ?c ?f] =>
    destruct (write_loop_shape g r c f) as (Hr & Hc & Hs) end.
  repeat split; trivial. apply Hs, shape_ok_zeros_like.
Qed.

Lemma px_enhance nan_u8 inf_u8 filtered i j :
  (i < rows filtered)%nat -> (j < cols filtered)%nat ->
  px (enhance nan_u8 inf_u8 filtered) i j =
  store_u8 nan_u8 inf_u8
    (lookup_table (plateau_histogram filtered) (px filtered i j)).
Proof.
  intros Hi Hj. rewrite enhance_as_loop. rewrite px_write_loop.
  - destruct (decide _) as [_|Hn]; [reflexivity|].
    exfalso. apply Hn. rewrite !in_range. lia.
  - apply shape_ok_zeros_like.
  - apply Forall_range_lt. simpl. lia.
  - apply Forall_range_lt. simpl. lia.
  - exact Hj.
Qed.

(** X7. The enhancement loop yields an image of the filtered image's
    shape in which every pixel is the table entry of the filtered pixel at
    the same position, converted to uint8. *)
Theorem enhance_pixelwise (nan_u8 inf_u8 : Z) (filtered : image) (i j : nat) :
  (i < rows filtered)%nat -> (j < cols filtered)%nat ->
  rows (enhance nan_u8 inf_u8 filtered) = rows filtered /\
  cols (enhance nan_u8 inf_u8 filtered) = cols filtered /\
  px (enhance nan_u8 inf_u8 filtered) i j =
  store_u8 nan_u8 inf_u8
    (lookup_table (plateau_histogram filtered) (px filtered i j)).
Proof.
  intros Hi Hj. destruct (enhance_shape nan_u8 inf_u8 filtered) as (Hr & Hc & _).
  repeat split; trivial. now apply px_enhance.
Qed.

Lemma enhance_pixelwise_witness :
  px (enhance 0 0 (adaptive_median_filter uniform_128)) 2 2 = 255 /\
  px (enhance 0 0 (adaptive_median_filter uniform_128)) 0 4 = 163.
Proof.
  split.
  - apply (enhance_pixelwise 0 0 (adaptive_median_filter uniform_128) 2 2);
      vm_compute; lia.
  - apply (enhance_pixelwise 0 0 (adaptive_median_filter uniform_128) 0 4);
      vm_compute; lia.
Defined.

Lemma plateau_Ft_mono img i j :
  (i <= j)%nat -> (j < 256)%nat ->
  nth i (plateau_Ft img) 0 <= nth j (plateau_Ft img) 0.
Proof.
  induction 1 as [|m Hle IH]; intros Hj; [lia|].
  specialize (IH ltac:(lia)). pose proof (plateau_Ft_step img m ltac:(lia)). lia.
Qed.

Lemma lookup_table_number img v :
  plateau_max_Ft img <> 0 -> 0 <= v <= 255 ->
  lookup_table (plateau_histogram img) v = Num (table_number img v).
Proof.
  intros HM Hv. unfold lookup_table, table_number.
  rewrite nth_plateau_histogram by lia. now apply floor_divide_num.
Qed.

Lemma table_number_bounds img v :
  plateau_max_Ft img <> 0 -> 0 <= v <= 255 -> 0 <= table_number img v <= 255.
Proof.
  intros HM Hv. unfold table_number.
  pose proof (plateau_Ft_bounds img (Z.to_nat v) ltac:(lia)).
  apply remap_entry_bounds; lia.
Qed.

Lemma table_number_mono img v w :
  plateau_max_Ft img <> 0 -> 0 <= v -> v <= w -> w <= 255 ->
  table_number img v <= table_number img w.
Proof.
  intros HM Hv Hvw Hw. unfold table_number.
  pose proof (plateau_Ft_bounds img 0 ltac:(lia)).
  apply Z.div_le_mono; [lia|]. apply f32_mono.
  pose proof (plateau_Ft_mono img (Z.to_nat v) (Z.to_nat w) ltac:(lia) ltac:(lia)).
  lia.
Qed.

Lemma px_enhance_number nan_u8 inf_u8 filtered i j :
  wf_image filtered -> plateau_max_Ft filtered <> 0 ->
  (i < rows filtered)%nat -> (j < cols filtered)%nat ->
  px (enhance nan_u8 inf_u8 filtered) i j = table_number filtered (px filtered i j).
Proof.
  intros Hw HM Hi Hj. rewrite px_enhance by trivial.
  pose proof (px_is_u8 filtered i j Hw) as Hu. unfold is_u8 in Hu.
  now rewrite lookup_table_number.
Qed.

Lemma enhance_wf nan_u8 inf_u8 filtered :
  wf_image filtered -> plateau_max_Ft filtered <> 0 ->
  wf_image (enhance nan_u8 inf_u8 filtered).
Proof.
  intros Hw HM.
  destruct (enhance_shape nan_u8 inf_u8 filtered) as (Hr & Hc & Hs).
  split; [exact Hs|]. apply Forall_px; [exact Hs|].
  intros a b Ha Hb. rewrite Hr in Ha. rewrite Hc in Hb.
  rewrite px_enhance_number by trivial.
  apply table_number_bounds; [exact HM|]. now apply px_is_u8.
Qed.

(** X8. When the clipped total is not zero, enhancing a well-formed image
    gives a well-formed image, and the enhancement preserves the order of
    pixel values: a pixel that is not brighter than another before is not
    brighter after. *)
Theorem enhance_wf_monotone (nan_u8 inf_u8 : Z) (filtered : image) (i j i' j' : nat) :
  wf_image filtered -> plateau_max_Ft filtered <> 0 ->
  (i < rows filtered)%nat -> (j < cols filtered)%nat ->
  (i' < rows filtered)%nat -> (j' < cols filtered)%nat ->
  wf_image (enhance nan_u8 inf_u8 filtered) /\
  (px filtered i j <= px filtered i' j' ->
   px (enhance nan_u8 inf_u8 filtered) i j <=
   px (enhance nan_u8 inf_u8 filtered) i' j').
Proof.
  intros Hw HM Hi Hj Hi' Hj'.
  split.
  - now apply enhance_wf.
  - intros Hle. rewrite !px_enhance_number by trivial.
    pose proof (px_is_u8 filtered i j Hw) as Hu.
    pose proof (px_is_u8 filtered i' j' Hw) as Hu'. unfold is_u8 in *.
    apply table_number_mono; lia.
Qed.

Lemma enhance_wf_monotone_witness :
  wf_image (enhance 0 0 (adaptive_median_filter uniform_128)).
Proof.
  apply (enhance_wf_monotone 0 0 (adaptive_median_filter uniform_128) 0 0 2 2);
    first [ apply wf_imageb_correct; vm_compute; reflexivity
          | vm_compute; discriminate
          | vm_compute; lia ].
Defined.

(** ** Images on which the division is by zero *)

Lemma threshold_zero_extreme_values img :
  Forall (fun v => v <= 1 \/ 255 <= v) (data img) ->
  plateau_threshold (calcHist img) = 0.
Proof.
  intros Hv. apply plateau_threshold_zero_iff. intros i Hi. unfold is_peak.
  rewrite (bin_absent_value img i) by
    (try lia; intros Hin; rewrite Forall_forall in Hv;
     apply list_elem_of_In, Hv in Hin; lia).
  pose proof (bin_calcHist_nonneg img (i - 1)).
  apply andb_false_iff. left. apply Z.ltb_ge. lia.
Qed.

Lemma table_nan_extreme_values img :
  Forall (fun v => v <= 1 \/ 255 <= v) (data img) ->
  plateau_histogram img = repeat NaN 256.
Proof.
  intros Hv.
  now apply plateau_histogram_nan, plateau_max_Ft_zero_iff,
            threshold_zero_extreme_values.
Qed.

(** X9. An image whose pixel values are all 0, 1 or 255 (an all-black or
    all-white image, a black-and-white mask) has no countable peak: its
    remap table is all nan. *)
Theorem extreme_values_table_nan (img : image) :
  Forall (fun v => v <= 1 \/ 255 <= v) (data img) ->
  plateau_threshold (calcHist img) = 0 /\
  plateau_histogram img = repeat NaN 256.
Proof.
  intros Hv. split.
  - now apply threshold_zero_extreme_values.
  - now apply table_nan_extreme_values.
Qed.

Lemma extreme_values_table_nan_witness :
  plateau_histogram (mkImage 2 2 [0; 255; 255; 1]) = repeat NaN 256.
Proof.
  apply (extreme_values_table_nan (mkImage 2 2 [0; 255; 255; 1])).
  repeat constructor; lia.
Defined.

Lemma adaptive_median_filter_small img :
  (rows img < 3)%nat \/ (cols img < 3)%nat ->
  adaptive_median_filter img = zeros_like img.
Proof.
  intros H. unfold adaptive_median_filter. destruct H as [H|H].
  - replace (range 1 (rows img - 1)) with (@nil nat); [reflexivity|].
    unfold range. now replace (rows img - 1 - 1)%nat with 0%nat by lia.
  - replace (range 1 (cols img - 1)) with (@nil nat).
    + simpl. generalize (zeros_like img).
      induction (range 1 (rows img - 1)) as [|k l IH]; intros f; simpl; auto.
    + unfold range. now replace (cols img - 1 - 1)%nat with 0%nat by lia.
Qed.

Lemma px_constant (r c : nat) (x : Z) (i j : nat) :
  (i < r)%nat -> (j < c)%nat -> px (mkImage r c (repeat x (r * c))) i j = x.
Proof.
  intros Hi Hj. apply px_lookup. simpl.
  destruct (lookup_lt_is_Some_2 (repeat x (r * c)) (i * c + j)) as [y Hy].
  - rewrite repeat_length. now apply flat_index_lt.
  - rewrite Hy. f_equal.
    apply list_elem_of_lookup_2, list_elem_of_In, repeat_spec in Hy. exact Hy.
Qed.

Lemma lookup_table_nan v : lookup_table (repeat NaN 256) v = NaN.
Proof. unfold lookup_table. apply nth_repeat. Qed.

Lemma enhance_nan nan_u8 inf_u8 filtered :
  plateau_max_Ft filtered = 0 ->
  enhance nan_u8 inf_u8 filtered =
  mkImage (rows filtered) (cols filtered)
          (repeat nan_u8 (rows filtered * cols filtered)).
Proof.
  intros HM. pose proof (plateau_histogram_nan filtered HM) as Et.
  destruct (enhance_shape nan_u8 inf_u8 filtered) as (Hr & Hc & Hs).
  apply image_ext; trivial.
  - unfold shape_ok. simpl. apply repeat_length.
  - intros i j Hi Hj. rewrite Hr in Hi. rewrite Hc in Hj.
    rewrite px_enhance by trivial. rewrite Et, lookup_table_nan.
    now rewrite px_constant.
Qed.

(** X16. Whenever the clipped total is zero, every pixel of the enhanced
    image is what nan converts to, whatever the filtered image holds. *)
Theorem enhance_constant_when_total_zero (nan_u8 inf_u8 : Z) (filtered : image) :
  plateau_max_Ft filtered = 0 ->
  enhance nan_u8 inf_u8 filtered =
  mkImage (rows filtered) (cols filtered)
          (repeat nan_u8 (rows filtered * cols filtered)).
Proof. apply enhance_nan. Qed.

Lemma enhance_constant_when_total_zero_witness :
  enhance 7 9 (mkImage 2 2 [0; 255; 255; 1]) = mkImage 2 2 [7; 7; 7; 7].
Proof.
  apply (enhance_constant_when_total_zero 7 9 (mkImage 2 2 [0; 255; 255; 1])).
  vm_compute. reflexivity.
Defined.

(** X17. The table always has 256 entries and never holds inf: either
    every entry is nan, or every entry is a number in [0, 255] and the
    table is non-decreasing. *)
Theorem plateau_histogram_nan_or_numbers (img : image) :
  length (plateau_histogram img) = 256%nat /\
  (plateau_histogram img = repeat NaN 256 \/
   (remap_in_range (plateau_histogram img) /\
    remap_monotone (plateau_histogram img))).
Proof.
  split.
  - unfold plateau_histogram. rewrite length_map. apply length_plateau_Ft.
  - destruct (Z.eq_dec (plateau_max_Ft img) 0) as [H0|HM].
    + left. now apply plateau_histogram_nan.
    + right. split.
      * intros i Hi. exists (table_number img (Z.of_nat i)). split.
        -- rewrite <- (lookup_table_number img (Z.of_nat i)) by (trivial; lia).
           unfold lookup_table. now rewrite Nat2Z.id.
        -- apply table_number_bounds; [exact HM | lia].
      * intros i Hi.
        exists (table_number img (Z.of_nat i)), (table_number img (Z.of_nat (S i))).
        split; [|split].
        -- rewrite <- (lookup_table_number img (Z.of_nat i)) by (trivial; lia).
           unfold lookup_table. now rewrite Nat2Z.id.
        -- rewrite <- (lookup_table_number img (Z.of_nat (S i))) by (trivial; lia).
           unfold lookup_table. now rewrite Nat2Z.id.
        -- apply table_number_mono; trivial; lia.
Qed.

(** X10. On an image with fewer than 3 rows or fewer than 3 columns the
    filter leaves only zeros, the table computed from them is all nan, and
    every pixel of the enhanced image is what nan converts to: the result of
    the stages does not depend on the pixel values of the input. *)
Theorem small_image_enhanced_is_nan
  (GaussianBlur : image -> image) (nan_u8 inf_u8 : Z) (img : image) :
  (rows img < 3)%nat \/ (cols img < 3)%nat ->
  plateau_histogram (adaptive_median_filter img) = repeat NaN 256 /\
  enhance nan_u8 inf_u8 (adaptive_median_filter img) =
    mkImage (rows img) (cols img) (repeat nan_u8 (rows img * cols img)) /\
  process_stages GaussianBlur nan_u8 inf_u8 img =
    optimize_palette
      (edge_sharpening GaussianBlur
         (mkImage (rows img) (cols img) (repeat nan_u8 (rows img * cols img)))).
Proof.
  intros Hsmall.
  pose proof (adaptive_median_filter_small img Hsmall) as Ez.
  assert (Et : plateau_histogram (zeros_like img) = repeat NaN 256).
  { apply table_nan_extreme_values. apply Forall_forall. intros v Hv.
    apply list_elem_of_In, repeat_spec in Hv. lia. }
  assert (Ee : enhance nan_u8 inf_u8 (zeros_like img) =
               mkImage (rows img) (cols img) (repeat nan_u8 (rows img * cols img))).
  { destruct (enhance_shape nan_u8 inf_u8 (zeros_like img)) as (Hr & Hc & Hs).
    apply image_ext; trivial.
    - unfold shape_ok. simpl. apply repeat_length.
    - intros i j Hi Hj. rewrite Hr in Hi. rewrite Hc in Hj. simpl in Hi, Hj.
      rewrite px_enhance by trivial. rewrite Et, lookup_table_nan.
      now rewrite px_constant. }
  unfold process_stages. rewrite Ez.
  split; [exact Et|]. split; [exact Ee|]. rewrite Ee. reflexivity.
Qed.

Lemma small_image_enhanced_is_nan_witness :
  enhance 7 9 (adaptive_median_filter (mkImage 2 3 [10; 20; 30; 40; 50; 60])) =
  mkImage 2 3 [7; 7; 7; 7; 7; 7].
Proof.
  apply (small_image_enhanced_is_nan box_blur 7 9 (mkImage 2 3 [10; 20; 30; 40; 50; 60])).
  simpl. lia.
Defined.

(** ** Sharpening, case by case *)

(** X11. Sharpening leaves a pixel unchanged where the blurred image is at
    least as bright, and elsewhere raises it by the difference to the
    blurred value, up to 255. *)
Theorem edge_sharpening_cases (blur : image -> image) (img : image) (i j : nat) :
  wf_image img -> wf_image (blur img) ->
  rows (blur img) = rows img -> cols (blur img) = cols img ->
  (i < rows img)%nat -> (j < cols img)%nat ->
  (px img i j <= px (blur img) i j ->
   px (edge_sharpening blur img) i j = px img i j) /\
  (px (blur img) i j < px img i j ->
   px (edge_sharpening blur img) i j =
   Z.min 255 (2 * px img i j - px (blur img) i j)).
Proof.
  intros Hw Hwb Hr Hc Hi Hj.
  rewrite px_edge_sharpening by auto using wf_shape_ok.
  pose proof (px_is_u8 img i j Hw) as Ha.
  pose proof (px_is_u8 (blur img) i j Hwb) as Hb.
  unfold is_u8, saturate_u8 in *. lia.
Qed.

Lemma edge_sharpening_cases_witness :
  px (edge_sharpening box_blur strip_1x5) 0 2 = 100 /\
  px (edge_sharpening box_blur strip_1x5) 0 3 = 255.
Proof.
  split.
  - apply (edge_sharpening_cases box_blur strip_1x5 0 2);
      first [ apply wf_imageb_correct; vm_compute; reflexivity
            | reflexivity
            | simpl; lia
            | vm_compute; discriminate ].
  - apply (edge_sharpening_cases box_blur strip_1x5 0 3);
      first [ apply wf_imageb_correct; vm_compute; reflexivity
            | reflexivity
            | simpl; lia
            | vm_compute; reflexivity ].
Defined.

(** ** The four stages together *)

Lemma bitwise_not_u8_range v : is_u8 (bitwise_not_u8 v).
Proof.
  unfold is_u8, bitwise_not_u8.
  replace (Z.land (Z.lnot v) 255) with (Z.lnot v mod 2 ^ 8)
    by (symmetry; apply (Z.land_ones _ 8); lia).
  pose proof (Z.mod_pos_bound (Z.lnot v) (2 ^ 8) ltac:(lia)). lia.
Qed.

Lemma optimize_palette_wf img : shape_ok img -> wf_image (optimize_palette img).
Proof.
  intros Hs. split.
  - unfold optimize_palette. simpl. rewrite length_map. exact Hs.
  - unfold optimize_palette. simpl. apply Forall_forall. intros v Hv.
    apply list_elem_of_In, in_map_iff in Hv. destruct Hv as (x & <- & _).
    apply bitwise_not_u8_range.
Qed.

Lemma px_optimize_palette img i j :
  wf_image img -> (i < rows img)%nat -> (j < cols img)%nat ->
  px (optimize_palette img) i j = 255 - px img i j.
Proof.
  intros Hw Hi Hj.
  destruct (px_in_shape img i j (wf_shape_ok img Hw) Hi Hj) as (v & Hv).
  rewrite (px_lookup img i j v Hv).
  rewrite <- (bitwise_not_u8_sub v)
    by (destruct Hw as [_ Hu]; exact (Forall_lookup_1 _ _ _ _ Hu Hv)).
  apply px_lookup. unfold optimize_palette. simpl.
  change (map bitwise_not_u8 (data img)) with (bitwise_not_u8 <$> data img).
  now rewrite list_lookup_fmap, Hv.
Qed.

Lemma edge_sharpening_wf (blur : image -> image) img :
  wf_image img -> wf_image (blur img) ->
  rows (blur img) = rows img -> cols (blur img) = cols img ->
  wf_image (edge_sharpening blur img).
Proof.
  intros Hw Hwb Hr Hc.
  assert (Hs : shape_ok (edge_sharpening blur img)).
  { unfold edge_sharpening, cv_add. apply shape_ok_zip_with; trivial.
    - now apply wf_shape_ok.
    - unfold cv_subtract. apply shape_ok_zip_with; auto using wf_shape_ok. }
  split; [exact Hs|]. apply Forall_px; [exact Hs|].
  intros i j Hi Hj. change (rows (edge_sharpening blur img)) with (rows img) in Hi.
  change (cols (edge_sharpening blur img)) with (cols img) in Hj.
  rewrite px_edge_sharpening by auto using wf_shape_ok.
  unfold is_u8, saturate_u8. lia.
Qed.

(** X12. When the table computed from the filtered image holds numbers,
    or nan converts to a value in 0..255, and the blur returns a
    well-formed image of the same shape, the result of the four stages is a
    well-formed image of the input's shape, and no pixel of it is brighter
    than the inverse of the enhanced pixel. *)
Theorem process_stages_wf_bound
  (GaussianBlur : image -> image) (nan_u8 inf_u8 : Z) (img : image) (i j : nat) :
  wf_image img ->
  plateau_max_Ft (adaptive_median_filter img) <> 0 \/ is_u8 nan_u8 ->
  wf_image (GaussianBlur (enhance nan_u8 inf_u8 (adaptive_median_filter img))) ->
  rows (GaussianBlur (enhance nan_u8 inf_u8 (adaptive_median_filter img))) = rows img ->
  cols (GaussianBlur (enhance nan_u8 inf_u8 (adaptive_median_filter img))) = cols img ->
  (i < rows img)%nat -> (j < cols img)%nat ->
  wf_image (process_stages GaussianBlur nan_u8 inf_u8 img) /\
  rows (process_stages GaussianBlur nan_u8 inf_u8 img) = rows img /\
  cols (process_stages GaussianBlur nan_u8 inf_u8 img) = cols img /\
  px (process_stages GaussianBlur nan_u8 inf_u8 img) i j <=
  255 - px (enhance nan_u8 inf_u8 (adaptive_median_filter img)) i j.
Proof.
  intros Hw HM Hwb Hrb Hcb Hi Hj.
  destruct (adaptive_median_filter_shape img) as (Hrf & Hcf & Hsf).
  assert (Hwf : wf_image (adaptive_median_filter img)).
  { split; [exact Hsf|]. apply Forall_px; [exact Hsf|]. intros a b Ha Hb.
    rewrite Hcf in Hb. rewrite px_adaptive_median_filter_copy by exact Hb.
    destruct (decide _); [now apply px_is_u8 | unfold is_u8; lia]. }
  destruct (enhance_shape nan_u8 inf_u8 (adaptive_median_filter img))
    as (Hre & Hce & Hse).
  assert (Hwe : wf_image (enhance nan_u8 inf_u8 (adaptive_median_filter img))).
  { destruct (Z.eq_dec (plateau_max_Ft (adaptive_median_filter img)) 0) as [H0|Hne].
    - rewrite (enhance_nan _ _ _ H0). destruct HM as [HM|Hnan]; [contradiction|].
      split; [unfold shape_ok; simpl; apply repeat_length|].
      simpl. apply Forall_forall. intros v Hv.
      apply list_elem_of_In, repeat_spec in Hv. now subst v.
    - now apply enhance_wf. }
  unfold process_stages.
  set (e := enhance nan_u8 inf_u8 (adaptive_median_filter img)) in *.
  assert (Hws : wf_image (edge_sharpening GaussianBlur e))
    by (apply edge_sharpening_wf; trivial; congruence).
  assert (Hrs : rows (edge_sharpening GaussianBlur e) = rows img)
    by (change (rows e = rows img); congruence).
  assert (Hcs : cols (edge_sharpening GaussianBlur e) = cols img)
    by (change (cols e = cols img); congruence).
  split; [apply optimize_palette_wf, wf_shape_ok, Hws|].
  split; [exact Hrs|]. split; [exact Hcs|].
  rewrite px_optimize_palette by (trivial; congruence).
  rewrite px_edge_sharpening by (auto using wf_shape_ok; congruence).
  pose proof (px_is_u8 e i j Hwe) as Hu. unfold is_u8, saturate_u8 in *. lia.
Qed.

Lemma process_stages_wf_bound_witness :
  wf_image (process_stages box_blur 0 0 ramp_5x5).
Proof.
  apply (process_stages_wf_bound box_blur 0 0 ramp_5x5 2 2);
    [ apply wf_imageb_correct; vm_compute; reflexivity
    | left; vm_compute; discriminate
    | apply wf_imageb_correct; vm_compute; reflexivity
    | vm_compute; reflexivity
    | vm_compute; reflexivity
    | simpl; lia
    | simpl; lia ].
Defined.

(** ** Bounds on the threshold and on the clipped total *)

Lemma is_peak_not_adjacent hist i :
  is_peak hist i = true -> is_peak hist (S i) = false.
Proof.
  unfold is_peak. intros H. apply andb_true_iff in H. destruct H as [_ H].
  apply Z.gtb_lt in H. apply andb_false_iff. left. apply Z.ltb_ge.
  replace (S i - 1)%nat with i by lia. replace (S i) with (i + 1)%nat by lia.
  lia.
Qed.

(** Indices taken from a run of [2 * n] consecutive numbers, no two of
    them neighbours: at best the upper one of every pair. *)
Lemma sum_nonadjacent (p : nat -> bool) (n a : nat) :
  (forall i, p i = true -> p (S i) = false) ->
  sumZ (map Z.of_nat (List.filter p (seq a (2 * n)))) <=
  Z.of_nat n * Z.of_nat a + Z.of_nat n * Z.of_nat n.
Proof.
  intros Hp. revert a. induction n as [|n IH]; intros a; [simpl; lia|].
  replace (2 * S n)%nat with (S (S (2 * n))) by lia.
  rewrite <- (cons_seq (S (2 * n)) a), <- (cons_seq (2 * n) (S a)).
  rewrite !filter_cons_if, !map_app, !sumZ_app.
  specialize (IH (S (S a))). specialize (Hp a).
  rewrite !Nat2Z.inj_succ in *.
  destruct (p a); [rewrite Hp by reflexivity|]; destruct (p (S a));
    cbn [map sumZ fold_right]; rewrite ?Nat2Z.inj_succ; nia.
Qed.

Lemma peak_index_sum_le hist : peak_index_sum hist <= 16256.
Proof.
  unfold peak_index_sum. rewrite fold_peak_sum.
  change (range 1 255) with (seq 1 (2 * 127)).
  pose proof (sum_nonadjacent (is_peak hist) 127 1 (is_peak_not_adjacent hist)).
  lia.
Qed.

(** X13. No two neighbouring bins are both counted as peaks, so the
    threshold lies between 0 and 8128. *)
Theorem plateau_threshold_range (hist : list Z) :
  (forall i, is_peak hist i = true -> is_peak hist (S i) = false) /\
  0 <= plateau_threshold hist <= 8128.
Proof.
  split; [apply is_peak_not_adjacent|].
  unfold plateau_threshold.
  pose proof (peak_index_sum_bounds hist) as Hb.
  pose proof (peak_index_sum_le hist) as Hle.
  rewrite Z.quot_div_nonneg by lia.
  split; [apply Z.div_pos; lia|].
  change 8128 with (16256 / 2). apply Z.div_le_mono; lia.
Qed.

Lemma plateau_threshold_range_witness :
  is_peak (calcHist even_values) 5 = false.
Proof.
  apply (proj1 (plateau_threshold_range (calcHist even_values)) 4%nat).
  vm_compute. reflexivity.
Defined.

(** The bound is reached by the image holding each even value 2, 4, ...,
    254 once. *)
Lemma plateau_threshold_bound_reached :
  wf_image even_values /\ plateau_threshold (calcHist even_values) = 8128.
Proof.
  split; [apply wf_imageb_correct|]; vm_compute; reflexivity.
Qed.

Lemma sumZ_le_bound (B : Z) (l : list Z) :
  Forall (fun x => x <= B) l -> sumZ l <= B * Z.of_nat (length l).
Proof.
  induction 1 as [|x l Hx Hl IH]; [simpl; lia|].
  rewrite length_cons, Nat2Z.inj_succ. simpl sumZ.
  change (fold_right Z.add 0 l) with (sumZ l). lia.
Qed.

Lemma sumZ_map_le {A : Type} (f g : A -> Z) (l : list A) :
  (forall x, f x <= g x) -> sumZ (map f l) <= sumZ (map g l).
Proof.
  intros H. induction l as [|x l IH]; simpl; [lia|]. specialize (H x). lia.
Qed.

Lemma plateau_max_Ft_le_threshold img :
  plateau_max_Ft img <= 256 * plateau_threshold (calcHist img).
Proof.
  rewrite plateau_max_Ft_sum.
  pose proof (sumZ_le_bound (plateau_threshold (calcHist img))
                (clipped_hist (calcHist img))) as H.
  rewrite length_clipped_hist in H.
  change (Z.of_nat 256) with 256 in H. rewrite Z.mul_comm. apply H.
  eapply Forall_impl; [apply clipped_hist_le_threshold|].
  intros x Hx. simpl in Hx. lia.
Qed.

Lemma clipped_bin_le_bin img k : clipped_bin img k <= bin (calcHist img) k.
Proof. unfold clipped_bin, clip_bin. destruct (_ >? _) eqn:E; lia. Qed.

Lemma sumZ_bins img :
  sumZ (map (bin (calcHist img)) (seq 0 256)) = sumZ (calcHist img).
Proof.
  assert (E : map (bin (calcHist img)) (seq 0 256) = calcHist img).
  { unfold calcHist at 2. change (range 0 256) with (seq 0 256).
    apply map_ext_in. intros k Hk. apply in_seq in Hk.
    apply bin_calcHist. lia. }
  now rewrite E.
Qed.

(** X14. The clipped total [Ft[255]] is never negative, is at most 256
    times the threshold, and for a well-formed image of fewer than [2^24]
    pixels is at most the number of pixels. *)
Theorem plateau_total_bounds (img : image) :
  0 <= plateau_max_Ft img <= 256 * plateau_threshold (calcHist img) /\
  (wf_image img -> Z.of_nat (rows img * cols img) < 2 ^ 24 ->
   plateau_max_Ft img <= Z.of_nat (rows img * cols img)).
Proof.
  split; [split|].
  - pose proof (plateau_Ft_bounds img 0 ltac:(lia)). lia.
  - apply plateau_max_Ft_le_threshold.
  - intros [Hlen Hu] Hn. rewrite plateau_max_Ft_seq.
    pose proof (sumZ_map_le (clipped_bin img) (bin (calcHist img)) (seq 0 256)
                  (clipped_bin_le_bin img)) as Hle.
    rewrite sumZ_bins in Hle. rewrite <- Hlen in Hn |- *.
    rewrite calcHist_exact in Hle by exact Hn.
    rewrite sum_count_occ in Hle by exact Hu. exact Hle.
Qed.

Lemma plateau_total_bounds_witness :
  plateau_max_Ft ramp_5x5 <= 25.
Proof.
  apply (plateau_total_bounds ramp_5x5).
  - apply wf_imageb_correct. vm_compute. reflexivity.
  - reflexivity.
Defined.

(** ** Uniform images *)

Lemma bin_uniform (r c : nat) (v : Z) (k : nat) :
  (k < 256)%nat ->
  bin (calcHist (uniform_image r c v)) k =
  if Z.eq_dec (Z.of_nat k) v then f32 (Z.of_nat (r * c)) else 0.
Proof.
  intros Hk. rewrite bin_calcHist by exact Hk. unfold uniform_image. simpl data.
  destruct (Z.eq_dec (Z.of_nat k) v) as [E|E].
  - now rewrite (count_occ_repeat_eq Z.eq_dec _ E).
  - rewrite (count_occ_repeat_neq Z.eq_dec _ E). now rewrite f32_small.
Qed.

Lemma is_peak_uniform (r c : nat) (v : Z) (i : nat) :
  (0 < r * c)%nat -> (1 <= i <= 254)%nat ->
  is_peak (calcHist (uniform_image r c v)) i =
  if Z.eq_dec (Z.of_nat i) v then true else false.
Proof.
  intros Hn Hi. unfold is_peak. rewrite !bin_uniform by lia.
  pose proof (f32_pos (Z.of_nat (r * c)) ltac:(lia)) as Hpos.
  rewrite Z.gtb_ltb.
  destruct (Z.eq_dec (Z.of_nat (i - 1)) v), (Z.eq_dec (Z.of_nat i) v),
           (Z.eq_dec (Z.of_nat (i + 1)) v); try lia;
    repeat match goal with
           | |- context [?a <? ?b] => destruct (Z.ltb_spec a b)
           end; simpl; try reflexivity; lia.
Qed.

Lemma filter_single (p : nat -> bool) (n a w : nat) :
  (a <= w < a + n)%nat ->
  (forall i, (a <= i < a + n)%nat -> p i = if Nat.eq_dec i w then true else false) ->
  List.filter p (seq a n) = [w].
Proof.
  revert a. induction n as [|n IH]; intros a Hw Hp; [lia|].
  cbn [seq]. rewrite filter_cons_if. rewrite (Hp a) by lia.
  destruct (Nat.eq_dec a w) as [->|Hne].
  - rewrite filter_all_false; [reflexivity|].
    intros i Hi. apply in_seq in Hi. rewrite Hp by lia.
    destruct (Nat.eq_dec i w); [lia | reflexivity].
  - simpl. apply IH; [lia|]. intros i Hi. apply Hp. lia.
Qed.

Lemma plateau_threshold_uniform (r c : nat) (v : Z) :
  (0 < r * c)%nat -> 1 <= v <= 254 ->
  plateau_threshold (calcHist (uniform_image r c v)) = v / 2.
Proof.
  intros Hn Hv. unfold plateau_threshold.
  rewrite peak_index_sum_spec. unfold peak_bins.
  rewrite (filter_single _ 254 1 (Z.to_nat v)).
  - simpl sumZ. rewrite Z.add_0_r, Z2Nat.id by lia.
    apply Z.quot_div_nonneg; lia.
  - lia.
  - intros i Hi. rewrite <- is_peak_strict_local_peak.
    rewrite is_peak_uniform by lia.
    destruct (Z.eq_dec (Z.of_nat i) v), (Nat.eq_dec i (Z.to_nat v));
      try reflexivity; lia.
Qed.

(** X15. For a uniform image of any positive size whose value [v] lies in
    2..254 the threshold is [v // 2] and the remap table is a step: bins
    below [v] map to 0, bins from [v] on map to 255. *)
Theorem uniform_image_table (r c : nat) (v : Z) (i : nat) :
  (0 < r * c)%nat -> 2 <= v <= 254 -> (i < 256)%nat ->
  plateau_threshold (calcHist (uniform_image r c v)) = v / 2 /\
  nth i (plateau_histogram (uniform_image r c v)) NaN =
  Num (if Z.of_nat i <? v then 0 else 255).
Proof.
  intros Hn Hv Hi.
  pose proof (plateau_threshold_uniform r c v Hn ltac:(lia)) as Ht.
  split; [exact Ht|].
  assert (Hhalf : 1 <= v / 2 <= 127).
  { split; [apply Z.div_le_lower_bound; lia|].
    apply Z.div_le_upper_bound; lia. }
  assert (HM : plateau_max_Ft (uniform_image r c v) <> 0).
  { rewrite plateau_max_Ft_zero_iff, Ht. lia. }
  destruct (Z.ltb_spec (Z.of_nat i) v) as [Hlt|Hge].
  - apply table_below_pixels; trivial.
    apply Forall_forall. intros x Hx. simpl in Hx.
    apply list_elem_of_In, repeat_spec in Hx. lia.
  - rewrite table_above_pixels; trivial.
    + apply table_last_exact; [exact HM|].
      pose proof (plateau_max_Ft_le_threshold (uniform_image r c v)) as Hle.
      rewrite Ht in Hle. lia.
    + apply Forall_forall. intros x Hx. simpl in Hx.
      apply list_elem_of_In, repeat_spec in Hx. lia.
Qed.

Lemma uniform_image_table_witness :
  nth 70 (plateau_histogram (uniform_image 4 6 70)) NaN = Num 255.
Proof.
  apply (uniform_image_table 4 6 70 70); simpl; lia.
Defined.
